(** * The schema-driven form engine of [src/components/dynamic-form.tsx]

    A shallow embedding of the [DynamicForm] component: the Zod schema
    objects it introspects, the JavaScript values it coerces, the three
    data transformations it performs ([unwrapZodType], [defaultValues],
    [processedInitialValues]), the per-widget change handlers of
    [renderField], and the [isInitializingRef] flag with its deferred
    clear, followed by the properties the specification states about them. *)

From Stdlib Require Import ZArith NArith Ascii String List Permutation Lia DecimalN.
From stdpp Require Import base option list gmap strings.

Local Set Warnings "-register-all".
Local Open Scope N_scope.

(** ** JavaScript strings

    A JavaScript string is a finite sequence of UTF-16 code units.  A code
    unit is kept as an [N] below [0x10000]; [js] turns a literal of the
    development (ASCII) into the string with the same code units. *)

Module Js.

Abbreviation JsString := (list N).

Fixpoint js (s : string) : JsString :=
  match s with
  | EmptyString => []
  | String a r => N_of_ascii a :: js r
  end.

(** [WhiteSpace] and [LineTerminator] of ECMA-262: the code units that
    [String.prototype.trim], [parseInt] and [Number] strip. *)
Definition is_white_space (c : N) : bool :=
  (c =? 0x09) || (c =? 0x0A) || (c =? 0x0B) || (c =? 0x0C) || (c =? 0x0D)
  || (c =? 0x20) || (c =? 0xA0) || (c =? 0x1680)
  || ((0x2000 <=? c) && (c <=? 0x200A))
  || (c =? 0x2028) || (c =? 0x2029) || (c =? 0x202F) || (c =? 0x205F)
  || (c =? 0x3000) || (c =? 0xFEFF).

Fixpoint trimStart (s : JsString) : JsString :=
  match s with
  | [] => []
  | c :: r => if is_white_space c then trimStart r else s
  end.

Fixpoint trimEnd (s : JsString) : JsString :=
  match s with
  | [] => []
  | c :: r =>
      match trimEnd r with
      | [] => if is_white_space c then [] else [c]
      | r' => c :: r'
      end
  end.

(** [s.trim()] *)
Definition trim (s : JsString) : JsString := trimEnd (trimStart s).

(** [s.startsWith(p)] *)
Fixpoint startsWith (s p : JsString) {struct p} : bool :=
  match p, s with
  | [], _ => true
  | _ :: _, [] => false
  | c :: p', d :: s' => (c =? d) && startsWith s' p'
  end.

(** [s.endsWith(p)] *)
Definition endsWith (s p : JsString) : bool :=
  startsWith (rev s) (rev p).

(** [s.slice(start, end)]: negative indices count from the end, both are
    clamped to the string, an empty span gives the empty string. *)
Definition slice (s : JsString) (start stop : Z) : JsString :=
  let len := Z.of_nat (length s) in
  let from := if (start <? 0)%Z then Z.max (len + start) 0 else Z.min start len in
  let to := if (stop <? 0)%Z then Z.max (len + stop) 0 else Z.min stop len in
  take (Z.to_nat (to - from)) (drop (Z.to_nat from) s).

(** [s.split(sep)] for a separator of one code unit (the component only
    splits at [","]): the pieces between the occurrences of [sep], in
    order; the empty string gives one empty piece. *)
Fixpoint split (s : JsString) (sep : N) : list JsString :=
  match s with
  | [] => [[]]
  | c :: r =>
      if c =? sep then [] :: split r sep
      else match split r sep with
           | [] => [[c]]
           | piece :: pieces => (c :: piece) :: pieces
           end
  end.

(** [a.join(sep)] on strings. *)
Fixpoint join (pieces : list JsString) (sep : JsString) : JsString :=
  match pieces with
  | [] => []
  | [p] => p
  | p :: rest => p ++ sep ++ join rest sep
  end.

(** ** JavaScript numbers

    The component never computes with numbers: it reads them from text
    ([Number], [parseInt], [JSON.parse]) and prints them ([String]).  A
    finite number is therefore kept as the decimal it was read from,
    [(-1)^negative * digits * 10^exponent], in lowest terms ([digits] has no
    trailing zero, zero has exponent zero); the sign of zero is kept.

    The engine holds a double instead: the double nearest to that decimal,
    an infinity when the decimal is beyond the largest double, a zero when
    it is below the smallest.  The rounding is outside the model, so the
    decimal stands for the number the engine holds only where no rounding
    happens: in particular for every integer of magnitude up to [2^53]
    ([safe_integer]).  A property that depends on the value of a number
    read from text is stated within that range. *)

Inductive Number :=
| NaN
| Infinity (negative : bool)
| Finite (negative : bool) (digits : N) (exponent : Z).

Fixpoint strip_zeros (fuel : nat) (m : N) (e : Z) : N * Z :=
  match fuel with
  | O => (m, e)
  | S fuel' =>
      if (m mod 10 =? 0) then strip_zeros fuel' (m / 10) (e + 1)%Z else (m, e)
  end.

Definition mkFinite (negative : bool) (m : N) (e : Z) : Number :=
  if m =? 0 then Finite negative 0 0
  else let '(m', e') := strip_zeros (N.size_nat m) m e in Finite negative m' e'.

Definition isNaN (n : Number) : bool :=
  match n with NaN => true | _ => false end.

(** The integers that are doubles without rounding, whatever their
    digits: [m <= Number.MAX_SAFE_INTEGER + 1]. *)
Definition safe_integer (m : N) : Prop := m <= 2 ^ 53.

Definition is_zero (n : Number) : bool :=
  match n with Finite _ 0 _ => true | _ => false end.

(** Digits. *)
Definition is_digit (c : N) : bool := (0x30 <=? c) && (c <=? 0x39).

Definition digit_value (radix : N) (c : N) : option N :=
  let v :=
    if (0x30 <=? c) && (c <=? 0x39) then Some (c - 0x30)
    else if (0x61 <=? c) && (c <=? 0x7A) then Some (c - 0x61 + 10)
    else if (0x41 <=? c) && (c <=? 0x5A) then Some (c - 0x41 + 10)
    else None in
  match v with
  | Some d => if d <? radix then Some d else None
  | None => None
  end.

(** The longest prefix of [s] made of digits in [radix], and the rest. *)
Fixpoint span_digits (radix : N) (s : JsString) : JsString * JsString :=
  match s with
  | [] => ([], [])
  | c :: r =>
      match digit_value radix c with
      | Some _ => let '(ds, rest) := span_digits radix r in (c :: ds, rest)
      | None => ([], s)
      end
  end.

(** The value of a digit string (most significant digit first). *)
Definition digits_value (radix : N) (ds : JsString) : N :=
  fold_left (fun acc c => acc * radix + default 0 (digit_value radix c)) ds 0.

Definition strip_sign (s : JsString) : bool * JsString :=
  match s with
  | 0x2D :: r => (true, r)
  | 0x2B :: r => (false, r)
  | _ => (false, s)
  end.

(** [parseInt(s, 10)]: leading white space is skipped, a sign is read,
    and the longest prefix of decimal digits is the result; no digit at
    that place gives [NaN].  What follows the digits is ignored.  The
    result is the integer the digits denote; the engine gives the double
    nearest to it, which is that integer when it is a [safe_integer], is
    an integer too up to 308 digits, and is an infinity from some length
    on. *)
Definition parseInt10 (s : JsString) : Number :=
  let '(negative, r) := strip_sign (trimStart s) in
  match span_digits 10 r with
  | ([], _) => NaN
  | (ds, _) => mkFinite negative (digits_value 10 ds) 0
  end.

(** The exponent part of a decimal literal: [e] or [E], an optional sign
    and at least one digit, up to the end of the literal. *)
Definition parse_exponent (s : JsString) : option Z :=
  match s with
  | [] => Some 0%Z
  | c :: r =>
      if (c =? 0x65) || (c =? 0x45) then
        let '(negative, r') := strip_sign r in
        match span_digits 10 r' with
        | ((_ :: _) as ds, []) =>
            let v := Z.of_N (digits_value 10 ds) in
            Some (if negative then (- v)%Z else v)
        | _ => None
        end
      else None
  end.

(** [StrUnsignedDecimalLiteral]: [Infinity], or digits with an optional
    fraction and exponent; one of the integer and fraction parts may be
    empty, not both. *)
Definition parse_unsigned_decimal (negative : bool) (s : JsString) : option Number :=
  if decide (s = js "Infinity") then Some (Infinity negative)
  else
    let '(ip, r1) := span_digits 10 s in
    let '(fp, r2) :=
      match r1 with
      | 0x2E :: r => span_digits 10 r
      | _ => ([], r1)
      end in
    match ip, fp with
    | [], [] => None
    | _, _ =>
        match parse_exponent r2 with
        | Some e =>
            Some (mkFinite negative (digits_value 10 (ip ++ fp))
                    (e - Z.of_nat (length fp)))
        | None => None
        end
    end.

(** [NonDecimalIntegerLiteral]: [0x], [0o] or [0b] (either case) followed
    by at least one digit of that radix and nothing else; no sign. *)
Definition parse_non_decimal (s : JsString) : option Number :=
  match s with
  | 0x30 :: p :: r =>
      let radix :=
        if (p =? 0x78) || (p =? 0x58) then Some 16
        else if (p =? 0x6F) || (p =? 0x4F) then Some 8
        else if (p =? 0x62) || (p =? 0x42) then Some 2
        else None in
      match radix with
      | Some rx =>
          match span_digits rx r with
          | ((_ :: _) as ds, []) => Some (mkFinite false (digits_value rx ds) 0)
          | _ => None
          end
      | None => None
      end
  | _ => None
  end.

(** [StringToNumber]: the whole string, white space trimmed, must be a
    numeric literal; the empty string is [+0]; anything else is [NaN].
    Which strings are numeric literals does not depend on rounding; the
    value is the decimal of the literal, where the engine gives the
    nearest double (for [1e400] an infinity, for [1e-400] a zero). *)
Definition StringToNumber (s : JsString) : Number :=
  match trim s with
  | [] => Finite false 0 0
  | t =>
      match parse_non_decimal t with
      | Some n => n
      | None =>
          let '(negative, r) := strip_sign t in
          match parse_unsigned_decimal negative r with
          | Some n => n
          | None => NaN
          end
      end
  end.

(** The decimal digits of a natural number, as code units. *)
Fixpoint uint_units (d : Decimal.uint) : JsString :=
  match d with
  | Decimal.Nil => []
  | Decimal.D0 d => 0x30 :: uint_units d
  | Decimal.D1 d => 0x31 :: uint_units d
  | Decimal.D2 d => 0x32 :: uint_units d
  | Decimal.D3 d => 0x33 :: uint_units d
  | Decimal.D4 d => 0x34 :: uint_units d
  | Decimal.D5 d => 0x35 :: uint_units d
  | Decimal.D6 d => 0x36 :: uint_units d
  | Decimal.D7 d => 0x37 :: uint_units d
  | Decimal.D8 d => 0x38 :: uint_units d
  | Decimal.D9 d => 0x39 :: uint_units d
  end.

Definition N_units (n : N) : JsString := uint_units (N.to_uint n).

(** [Number::toString(x)] in radix 10. *)
Definition Number_toString (x : Number) : JsString :=
  match x with
  | NaN => js "NaN"
  | Infinity negative => (if negative then js "-" else []) ++ js "Infinity"
  | Finite _ 0 _ => js "0"
  | Finite negative m e =>
      let s := N_units m in
      let k := Z.of_nat (length s) in
      let n := (e + k)%Z in
      let body :=
        if ((k <=? n) && (n <=? 21))%Z then
          s ++ replicate (Z.to_nat (n - k)) 0x30
        else if ((0 <? n) && (n <=? 21))%Z then
          take (Z.to_nat n) s ++ js "." ++ drop (Z.to_nat n) s
        else if ((-6 <? n) && (n <=? 0))%Z then
          js "0." ++ replicate (Z.to_nat (- n)) 0x30 ++ s
        else
          let ex := (n - 1)%Z in
          let mant := match s with
                      | [d] => [d]
                      | d :: ds => d :: js "." ++ ds
                      | [] => []
                      end in
          mant ++ js "e" ++ (if (ex <? 0)%Z then js "-" else js "+")
               ++ N_units (Z.abs_N ex)
      in (if negative then js "-" else []) ++ body
  end.

(** ** JavaScript values

    The values a row of the data source or a parsed JSON text can hold,
    and [undefined].  An object is a plain object: a finite map from
    property names to values. *)

Inductive JsVal :=
| VUndefined
| VNull
| VBool (b : bool)
| VNum (n : Number)
| VStr (s : JsString)
| VArr (elems : list JsVal)
| VObj (props : gmap JsString JsVal).

(** [Array.isArray(v)] *)
Definition isArray (v : JsVal) : bool :=
  match v with VArr _ => true | _ => false end.

(** [v === null || v === undefined] *)
Definition is_nullish (v : JsVal) : bool :=
  match v with VNull | VUndefined => true | _ => false end.

(** [!!v] *)
Definition ToBoolean (v : JsVal) : bool :=
  match v with
  | VUndefined | VNull => false
  | VBool b => b
  | VNum n => negb (isNaN n || is_zero n)
  | VStr s => match s with [] => false | _ => true end
  | VArr _ | VObj _ => true
  end.

(** [String(v)]: an array is its elements joined by commas, [null] and
    [undefined] elements printing as nothing; a plain object prints as
    ["[object Object]"]. *)
Fixpoint ToString (v : JsVal) : JsString :=
  match v with
  | VUndefined => js "undefined"
  | VNull => js "null"
  | VBool true => js "true"
  | VBool false => js "false"
  | VNum n => Number_toString n
  | VStr s => s
  | VArr elems =>
      join (map (fun e => match e with
                          | VUndefined | VNull => []
                          | _ => ToString e
                          end) elems) (js ",")
  | VObj _ => js "[object Object]"
  end.

(** [Number(v)]: an array or object is converted through its string. *)
Definition ToNumber (v : JsVal) : Number :=
  match v with
  | VUndefined => NaN
  | VNull => Finite false 0 0
  | VBool true => Finite false 1 0
  | VBool false => Finite false 0 0
  | VNum n => n
  | VStr s => StringToNumber s
  | VArr _ | VObj _ => StringToNumber (ToString v)
  end.

(** [String(v)] and [Number(v)] convert an object through its methods
    [toString] and [valueOf].  In a plain object an own property
    [toString] shadows the method of [Object.prototype] with a value that
    cannot be called, and none of the two methods then gives a primitive:
    the conversion throws a [TypeError].  An array converts its elements
    ([null] and [undefined] apart), so it throws when one of them does.
    Where this holds, [ToString] and [ToNumber] above have no meaning. *)
Fixpoint conversion_throws (v : JsVal) : bool :=
  match v with
  | VObj props =>
      match props !! js "toString" with Some _ => true | None => false end
  | VArr elems => existsb conversion_throws elems
  | _ => false
  end.

(** ** Exceptions *)

Inductive Exn :=
| Error (message : JsString)   (* [throw new Error(message)] *)
| TypeError                    (* a property read on [undefined] or [null] *)
| SyntaxError.                 (* [JSON.parse] on a text that is not JSON *)

Inductive Result (A : Type) :=
| Ok (a : A)
| Throw (e : Exn).
Arguments Ok {A} a.
Arguments Throw {A} e.

Definition bind {A B} (r : Result A) (k : A -> Result B) : Result B :=
  match r with
  | Ok a => k a
  | Throw e => Throw e
  end.

(** [try { body } catch { handler }] *)
Definition try_catch {A} (body : Result A) (handler : A) : A :=
  match body with
  | Ok a => a
  | Throw _ => handler
  end.

(** ** [JSON.parse]

    A recursive-descent reader of the JSON grammar (ECMA-404).  Nested
    values make the recursion non-structural, so the three mutually
    recursive readers take fuel; [JSON_parse] gives them more than any
    text can use (see [parse_value_fuel]). *)

Inductive Parsed (A : Type) :=
| POk (a : A) (rest : JsString)
| PFail
| PFuel.
Arguments POk {A} a rest.
Arguments PFail {A}.
Arguments PFuel {A}.

Definition Parsed_map {A B} (f : A -> B) (p : Parsed A) : Parsed B :=
  match p with
  | POk a rest => POk (f a) rest
  | PFail => PFail
  | PFuel => PFuel
  end.

Definition is_json_ws (c : N) : bool :=
  (c =? 0x20) || (c =? 0x09) || (c =? 0x0A) || (c =? 0x0D).

Fixpoint skip_ws (s : JsString) : JsString :=
  match s with
  | [] => []
  | c :: r => if is_json_ws c then skip_ws r else s
  end.

(** The escape after a backslash that stands for one code unit. *)
Definition simple_escape (c : N) : option N :=
  if c =? 0x22 then Some 0x22
  else if c =? 0x5C then Some 0x5C
  else if c =? 0x2F then Some 0x2F
  else if c =? 0x62 then Some 0x08
  else if c =? 0x66 then Some 0x0C
  else if c =? 0x6E then Some 0x0A
  else if c =? 0x72 then Some 0x0D
  else if c =? 0x74 then Some 0x09
  else None.

(** The characters of a string literal after its opening quote, up to and
    including the closing quote. *)
Fixpoint parse_string_body (s : JsString) : option (JsString * JsString) :=
  match s with
  | [] => None
  | c :: r =>
      if c =? 0x22 then Some ([], r)
      else if c <? 0x20 then None
      else if c =? 0x5C then
        match r with
        | [] => None
        | e :: r1 =>
            if e =? 0x75 then
              match r1 with
              | h1 :: h2 :: h3 :: h4 :: r2 =>
                  match span_digits 16 [h1; h2; h3; h4] with
                  | ([_; _; _; _] as hs, _) =>
                      match parse_string_body r2 with
                      | Some (str, rest) => Some (digits_value 16 hs :: str, rest)
                      | None => None
                      end
                  | _ => None
                  end
              | _ => None
              end
            else
              match simple_escape e with
              | Some u =>
                  match parse_string_body r1 with
                  | Some (str, rest) => Some (u :: str, rest)
                  | None => None
                  end
              | None => None
              end
        end
      else
        match parse_string_body r with
        | Some (str, rest) => Some (c :: str, rest)
        | None => None
        end
  end.

(** A JSON number: an optional minus, an integer part without a leading
    zero (unless it is zero), an optional fraction and exponent, each with
    at least one digit. *)
Definition parse_json_number (s : JsString) : option (Number * JsString) :=
  let '(negative, r) :=
    match s with
    | c :: r => if c =? 0x2D then (true, r) else (false, s)
    | [] => (false, s)
    end in
  let '(ip, r1) := span_digits 10 r in
  let int_ok :=
    match ip with
    | [] => false
    | [_] => true
    | d :: _ => negb (d =? 0x30)
    end in
  if int_ok then
    let frac :=
      match r1 with
      | c :: r2 =>
          if c =? 0x2E then
            match span_digits 10 r2 with
            | ((_ :: _) as fp, r3) => Some (fp, r3)
            | _ => None
            end
          else Some ([], r1)
      | [] => Some ([], r1)
      end in
    match frac with
    | Some (fp, r3) =>
        let ex :=
          match r3 with
          | c :: r4 =>
              if (c =? 0x65) || (c =? 0x45) then
                let '(eneg, r5) := strip_sign r4 in
                match span_digits 10 r5 with
                | ((_ :: _) as ds, r6) =>
                    let v := Z.of_N (digits_value 10 ds) in
                    Some (if eneg then (- v)%Z else v, r6)
                | _ => None
                end
              else Some (0%Z, r3)
          | [] => Some (0%Z, r3)
          end in
        match ex with
        | Some (e, rest) =>
            Some (mkFinite negative (digits_value 10 (ip ++ fp))
                    (e - Z.of_nat (length fp)), rest)
        | None => None
        end
    | None => None
    end
  else None.

Fixpoint parse_value (fuel : nat) (s : JsString) : Parsed JsVal :=
  match fuel with
  | O => PFuel
  | S fuel' =>
      match skip_ws s with
      | [] => PFail
      | c :: r =>
          if c =? 0x7B then
            match skip_ws r with
            | [] => PFail
            | c' :: r' =>
                if c' =? 0x7D then POk (VObj ∅) r'
                else Parsed_map VObj (parse_members fuel' r ∅)
            end
          else if c =? 0x5B then
            match skip_ws r with
            | [] => PFail
            | c' :: r' =>
                if c' =? 0x5D then POk (VArr []) r'
                else Parsed_map VArr (parse_elements fuel' r [])
            end
          else if c =? 0x22 then
            match parse_string_body r with
            | Some (str, rest) => POk (VStr str) rest
            | None => PFail
            end
          else if startsWith (c :: r) (js "true") then
            POk (VBool true) (drop 4 (c :: r))
          else if startsWith (c :: r) (js "false") then
            POk (VBool false) (drop 5 (c :: r))
          else if startsWith (c :: r) (js "null") then
            POk VNull (drop 4 (c :: r))
          else
            match parse_json_number (c :: r) with
            | Some (n, rest) => POk (VNum n) rest
            | None => PFail
            end
      end
  end
with parse_elements (fuel : nat) (s : JsString) (acc : list JsVal)
  : Parsed (list JsVal) :=
  match fuel with
  | O => PFuel
  | S fuel' =>
      match parse_value fuel' s with
      | POk v r =>
          match skip_ws r with
          | [] => PFail
          | c :: r' =>
              if c =? 0x2C then parse_elements fuel' r' (acc ++ [v])
              else if c =? 0x5D then POk (acc ++ [v]) r'
              else PFail
          end
      | PFail => PFail
      | PFuel => PFuel
      end
  end
with parse_members (fuel : nat) (s : JsString) (acc : gmap JsString JsVal)
  : Parsed (gmap JsString JsVal) :=
  match fuel with
  | O => PFuel
  | S fuel' =>
      match skip_ws s with
      | [] => PFail
      | q :: r =>
          if q =? 0x22 then
            match parse_string_body r with
            | None => PFail
            | Some (k, r1) =>
                match skip_ws r1 with
                | [] => PFail
                | c1 :: r2 =>
                    if c1 =? 0x3A then
                      match parse_value fuel' r2 with
                      | POk v r3 =>
                          match skip_ws r3 with
                          | [] => PFail
                          | c3 :: r4 =>
                              if c3 =? 0x2C then
                                parse_members fuel' r4 (<[k:=v]> acc)
                              else if c3 =? 0x7D then POk (<[k:=v]> acc) r4
                              else PFail
                          end
                      | PFail => PFail
                      | PFuel => PFuel
                      end
                    else PFail
                end
            end
          else PFail
      end
  end.

(** [JSON.parse(text)]: one value, white space around it, nothing else. *)
Definition JSON_parse (text : JsString) : Result JsVal :=
  match parse_value (2 * length text + 2) text with
  | POk v rest =>
      match skip_ws rest with
      | [] => Ok v
      | _ => Throw SyntaxError
      end
  | PFail | PFuel => Throw SyntaxError
  end.

End Js.

(** ** Zod schema objects

    What the component reads of a Zod schema: the [_def.typeName] tag of a
    node and, per tag, [_def.innerType], [_def.schema], [_def.values] and
    [_def.defaultValue]. *)

Module Zod.
Import Js.

(** The members of [ZodFirstPartyTypeKind] that the component does not
    name; it reads nothing else of such a node. *)
Module Kind.
Inductive OtherTypeName :=
| ZodNaN | ZodBigInt | ZodDate | ZodSymbol | ZodUndefined | ZodNull
| ZodAny | ZodUnknown | ZodNever | ZodVoid | ZodObject | ZodUnion
| ZodDiscriminatedUnion | ZodIntersection | ZodTuple | ZodRecord | ZodMap
| ZodSet | ZodFunction | ZodLazy | ZodLiteral | ZodNativeEnum | ZodPromise
| ZodBranded | ZodPipeline | ZodCatch | ZodReadonly.
End Kind.

(** A node as Zod builds it: a wrapper has its inner node, and the
    producer of a default is a function that returns ([z.default(v)]
    stores [() => v]).  A producer that throws, and an object that has a
    wrapper's tag without its inner node, are not among these nodes. *)
Inductive ZodType :=
| ZodString
| ZodNumber
| ZodBoolean
| ZodEnum (values : list JsString)
| ZodArray (type : ZodType)
| ZodOptional (innerType : ZodType)
| ZodNullable (innerType : ZodType)
| ZodDefault (innerType : ZodType) (defaultValue : unit -> JsVal)
| ZodEffects (schema : ZodType)
| ZodOther (typeName : Kind.OtherTypeName).

(** A property of [schema.shape].  The shape is typed [any], so besides a
    Zod node the component guards against three kinds of value. *)
Inductive ShapeEntry :=
| EUndefined             (* [undefined] *)
| ENoDef                 (* [null], a primitive, or an object whose [_def]
                            is [undefined] or [null]: reading
                            [_def.typeName] throws *)
| EBadDef                (* an object whose [_def] is a primitive or a
                            function: [_def.typeName] reads [undefined] *)
| EZod (t : ZodType).

(** [schema.shape]: the own properties in [Object.keys] order.  Property
    names of an object are distinct. *)
Record ZodObject := { shape : list (JsString * ShapeEntry) }.

(** [Object.keys(schema.shape)] *)
Definition keys (schema : ZodObject) : list JsString :=
  map fst (shape schema).

(** [schema.shape[key]]; a name that is no property reads [undefined]. *)
Fixpoint shape_get (entries : list (JsString * ShapeEntry)) (key : JsString)
  : ShapeEntry :=
  match entries with
  | [] => EUndefined
  | (k, e) :: rest => if decide (k = key) then e else shape_get rest key
  end.

End Zod.

(** ** The component *)

Module DynamicForm.
Import Js Zod.

Notation "'let*' x ':=' r 'in' k" := (bind r (fun x => k))
  (at level 10, x name, r at level 100, k at level 200).

(** [l.reduce((acc, x) => f(acc, x), init)] with a callback that may throw. *)
Fixpoint reduce {A B} (f : B -> A -> Result B) (l : list A) (init : B)
  : Result B :=
  match l with
  | [] => Ok init
  | x :: rest => let* acc := f init x in reduce f rest acc
  end.

(** [l.map(f)] with a callback that may throw. *)
Fixpoint map_throwing {A B} (f : A -> Result B) (l : list A) : Result (list B) :=
  match l with
  | [] => Ok []
  | x :: rest => let* y := f x in let* ys := map_throwing f rest in Ok (y :: ys)
  end.

Definition invalid_schema_message : JsString :=
  js "unwrapZodType received an invalid Zod schema object. Check the console for the problematic schema/key.".

(** The [while] loop of [unwrapZodType] (source lines 50-64). *)
Fixpoint unwrap_loop (currentSchema : ZodType) : ZodType :=
  match currentSchema with
  | ZodEffects schema => unwrap_loop schema
  | ZodOptional innerType
  | ZodDefault innerType _
  | ZodNullable innerType => unwrap_loop innerType
  | _ => currentSchema
  end.

(** [unwrapZodType] (source lines 40-65). *)
Definition unwrapZodType (fieldSchema : ShapeEntry) : Result ZodType :=
  match fieldSchema with
  | EZod t => Ok (unwrap_loop t)
  | EUndefined | ENoDef | EBadDef => Throw (Error invalid_schema_message)
  end.

(** [typeof fieldSchema === "undefined"] *)
Definition is_undefined (fieldSchema : ShapeEntry) : bool :=
  match fieldSchema with EUndefined => true | _ => false end.

(** The test [fieldSchema._def.typeName === "ZodDefault"] (source line
    85), which reads [_def] without a guard; when it holds, the result is
    [_def.defaultValue]. *)
Definition declared_default (fieldSchema : ShapeEntry)
  : Result (option (unit -> JsVal)) :=
  match fieldSchema with
  | EUndefined | ENoDef => Throw TypeError
  | EBadDef => Ok None
  | EZod (ZodDefault _ defaultValue) => Ok (Some defaultValue)
  | EZod _ => Ok None
  end.

(** The [switch] on the base type (source lines 92-113). *)
Definition switch_default (baseType : ZodType) : JsVal :=
  match baseType with
  | ZodString => VStr []
  | ZodBoolean => VBool false
  | ZodEnum enumValues =>
      match enumValues with
      | first :: _ => VStr first
      | [] => VStr []
      end
  | ZodNumber => VNum (Finite false 0 0)
  | ZodArray _ => VArr []
  | _ => VUndefined
  end.

(** What the callback of a reduction does with the value it computed
    for [key]: [acc[key] = value; return acc].  The accumulator starts as
    the literal [{}] and is given by its own properties.  The one name
    under which the assignment creates no own property is [__proto__]:
    it reaches the accessor of [Object.prototype], which changes the
    prototype of [acc] (when the value is an object or [null]) or does
    nothing, and [acc] keeps the own properties it had. *)
Definition assign (value_of : JsString -> Result JsVal)
    (acc : gmap JsString JsVal) (key : JsString) : Result (gmap JsString JsVal) :=
  let* value := value_of key in
  Ok (if decide (key = js "__proto__") then acc else <[key := value]> acc).

(** The value the callback of [defaultValues] computes for [key] (source
    lines 78-113). *)
Definition default_value (schema : ZodObject) (key : JsString) : Result JsVal :=
  let originalFieldSchema := shape_get (shape schema) key in
  if is_undefined originalFieldSchema then
    Throw (Error (js "Schema error: schema.shape['" ++ key
                    ++ js "'] is undefined. Check schema definition."))
  else
    let* declared := declared_default originalFieldSchema in
    match declared with
    | Some defaultValue => Ok (defaultValue tt)
    | None =>
        let* baseType := unwrapZodType originalFieldSchema in
        Ok (switch_default baseType)
    end.

(** [defaultValues] (source lines 77-115). *)
Definition defaultValues (schema : ZodObject) : Result (gmap JsString JsVal) :=
  reduce (assign (default_value schema)) (keys schema) ∅.

(** [enumValues.includes(value)]: the options are strings, so only an
    equal string is included. *)
Definition includes (enumValues : list JsString) (value : JsVal) : bool :=
  match value with
  | VStr s => bool_decide (s ∈ enumValues)
  | _ => false
  end.

(** [enumValues[0] || ""] *)
Definition first_or_empty (enumValues : list JsString) : JsVal :=
  match enumValues with
  | first :: _ => if ToBoolean (VStr first) then VStr first else VStr []
  | [] => VStr []
  end.

(** The [try] block of the array branch (source lines 165-171). *)
Definition parse_pg_array (value : JsString) : Result JsVal :=
  let innerContent := slice value 1 (-1) in
  if decide (trim innerContent = []) then Ok (VArr [])
  else Ok (VArr (map (fun item => VStr (trim item)) (split innerContent 0x2C))).

(** The coercion of one value by the base type of its field (source
    lines 138-181). *)
Definition coerce_initial (baseFieldType : ZodType) (value : JsVal) : JsVal :=
  match baseFieldType with
  | ZodBoolean => VBool (ToBoolean value)
  | ZodString => if is_nullish value then VStr [] else VStr (ToString value)
  | ZodEnum enumValues =>
      if is_nullish value || negb (includes enumValues value)
      then first_or_empty enumValues
      else VStr (ToString value)
  | ZodNumber =>
      let num := ToNumber value in
      if isNaN num then VNum (Finite false 0 0) else VNum num
  | ZodArray _ =>
      if isArray value then value
      else if is_nullish value then VArr []
      else
        match value with
        | VStr s =>
            if startsWith s (js "{") && endsWith s (js "}")
            then try_catch (parse_pg_array s) (VArr [])
            else VArr []
        | _ => VArr []
        end
  | _ => value
  end.

(** Whether the coercion of [value] for a field of base type
    [baseFieldType] throws: it does where it converts a value that
    cannot be converted, with [String(value)] (source line 141; an
    enumeration converts strings only) or [Number(value)] (source line
    149). *)
Definition coercion_throws (baseFieldType : ZodType) (value : JsVal) : bool :=
  match baseFieldType with
  | ZodString => negb (is_nullish value) && conversion_throws value
  | ZodNumber => conversion_throws value
  | _ => false
  end.

(** [initialValues.hasOwnProperty(key) ? initialValues[key] : undefined]
    (source lines 133-135).  [initialValues] is a plain record (a row of a
    table), given by its own properties.  The method is looked up on the
    record itself: an own property named [hasOwnProperty] shadows the
    method of [Object.prototype], and since it holds a value of the row
    and no function, the call throws. *)
Definition own_or_undefined (initialValues : gmap JsString JsVal)
    (key : JsString) : Result JsVal :=
  match initialValues !! js "hasOwnProperty" with
  | Some _ => Throw TypeError
  | None =>
      Ok match initialValues !! key with
         | Some v => v
         | None => VUndefined
         end
  end.

(** The value the callback of [processedInitialValues] computes for
    [key] (source lines 127-181): the test for [undefined], then the read
    of the row, then the unwrapping, then the coercion. *)
Definition initial_value (schema : ZodObject)
    (initialValues : gmap JsString JsVal) (key : JsString) : Result JsVal :=
  let fieldDefFromSchema := shape_get (shape schema) key in
  if is_undefined fieldDefFromSchema then
    Throw (Error (js "Schema error in useEffect: schema.shape['" ++ key
                    ++ js "'] is undefined."))
  else
    let* value := own_or_undefined initialValues key in
    let* baseFieldType := unwrapZodType fieldDefFromSchema in
    if coercion_throws baseFieldType value then Throw TypeError
    else Ok (coerce_initial baseFieldType value).

(** [processedInitialValues] (source lines 125-183), the values handed to
    [form.reset]. *)
Definition processedInitialValues (schema : ZodObject)
    (initialValues : gmap JsString JsVal) : Result (gmap JsString JsVal) :=
  reduce (assign (initial_value schema initialValues)) (keys schema) ∅.

(** *** Change handlers of [renderField] *)

(** [onChange] of the number input (source lines 258-262), applied to
    [e.target.value]; the result is what [field.onChange] receives. *)
Definition onChange_number (value : JsString) : JsVal :=
  let num := parseInt10 value in
  if isNaN num then VUndefined else VNum num.

(** [onChange] of the array input (source lines 370-389). *)
Definition onChange_array (value : JsString) : JsVal :=
  if decide (trim value = []) then VNull
  else
    try_catch
      (let* parsed := JSON_parse value in
       Ok (if isArray parsed then parsed else VStr value))
      (VStr value).

(** The widget [renderField] selects (source lines 210-398). *)
Inductive Widget :=
| TextInput
| NumberInput
| SwitchToggle
| SelectList (options : list JsString)
| ArrayInput
| NoWidget.

Definition renderField (fieldSchema : ShapeEntry) : Result Widget :=
  let* baseType := unwrapZodType fieldSchema in
  Ok match baseType with
     | ZodString => TextInput
     | ZodNumber => NumberInput
     | ZodBoolean => SwitchToggle
     | ZodEnum options => SelectList options
     | ZodArray _ => ArrayInput
     | _ => NoWidget
     end.

(** One synchronous run of the component function: the default values,
    then one widget per key (source lines 77-120 and 404-417).  An
    exception of either leaves no form. *)
Definition render (schema : ZodObject)
  : Result (gmap JsString JsVal * list (JsString * Widget)) :=
  let* dv := defaultValues schema in
  let* widgets :=
    map_throwing
      (fun fieldName =>
         let* w := renderField (shape_get (shape schema) fieldName) in
         Ok (fieldName, w))
      (keys schema) in
  Ok (dv, widgets).

(** *** The form over time

    [isInitializingRef], the values react-hook-form holds, the callbacks
    [setTimeout] has pending, and the calls of [field.onChange] so far
    (the edits react-hook-form is told of). *)
Record FormState := {
  isInitializing : bool;
  formValues : gmap JsString JsVal;
  pendingTimeouts : nat;
  onChangeCalls : list (JsString * JsVal)
}.

(** What a widget passes to its change callback. *)
Inductive Payload :=
| Typed (value : JsString)      (* [e.target.value], or the selected option *)
| Toggled (checked : bool).     (* [onCheckedChange] of the switch *)

Inductive Event :=
| RunEffect (initialValues : option (gmap JsString JsVal))
| Timeout
| WidgetChange (fieldName : JsString) (payload : Payload).

(** [field.onChange(v)] of the field [fieldName]. *)
Definition field_onChange (fieldName : JsString) (v : JsVal) (st : FormState)
  : FormState :=
  {| isInitializing := isInitializing st;
     formValues := <[fieldName := v]> (formValues st);
     pendingTimeouts := pendingTimeouts st;
     onChangeCalls := onChangeCalls st ++ [(fieldName, v)] |}.

(** The state after the first render, before any effect has run. *)
Definition mounted (dv : gmap JsString JsVal) : FormState :=
  {| isInitializing := true;
     formValues := dv;
     pendingTimeouts := 0;
     onChangeCalls := [] |}.

(** The change callback wired to the widget of a field, by base type. *)
Definition widget_change (baseType : ZodType) (fieldName : JsString)
    (payload : Payload) (st : FormState) : FormState :=
  match baseType, payload with
  | ZodString, Typed value => field_onChange fieldName (VStr value) st
  | ZodNumber, Typed value => field_onChange fieldName (onChange_number value) st
  | ZodBoolean, Toggled checked => field_onChange fieldName (VBool checked) st
  | ZodEnum _, Typed value =>
      if negb (isInitializing st) then field_onChange fieldName (VStr value) st
      else st
  | ZodArray _, Typed value => field_onChange fieldName (onChange_array value) st
  | _, _ => st
  end.

(** One step of the form: the body of [useEffect] (source lines 122-191),
    a pending [setTimeout] callback, or a widget calling back. *)
Definition step (schema : ZodObject) (st : FormState) (ev : Event)
  : Result FormState :=
  match ev with
  | RunEffect (Some initialValues) =>
      let* processed := processedInitialValues schema initialValues in
      Ok {| isInitializing := true;
            formValues := processed;
            pendingTimeouts := S (pendingTimeouts st);
            onChangeCalls := onChangeCalls st |}
  | RunEffect None =>
      Ok {| isInitializing := false;
            formValues := formValues st;
            pendingTimeouts := pendingTimeouts st;
            onChangeCalls := onChangeCalls st |}
  | Timeout =>
      match pendingTimeouts st with
      | O => Ok st
      | S n =>
          Ok {| isInitializing := false;
                formValues := formValues st;
                pendingTimeouts := n;
                onChangeCalls := onChangeCalls st |}
      end
  | WidgetChange fieldName payload =>
      let* baseType := unwrapZodType (shape_get (shape schema) fieldName) in
      Ok (widget_change baseType fieldName payload st)
  end.

Definition run (schema : ZodObject) (st : FormState) (evs : list Event)
  : Result FormState :=
  reduce (step schema) evs st.

End DynamicForm.

(** ** Vocabulary of the specification

    Predicates and example data the properties are stated with. *)

Module Spec.
Import Js Zod DynamicForm.

(** A well-formed schema: every property of the shape is a Zod node. *)
Definition is_zod (e : ShapeEntry) : bool :=
  match e with EZod _ => true | _ => false end.

Definition schema_ok (schema : ZodObject) : bool :=
  forallb (fun key => is_zod (shape_get (shape schema) key)) (keys schema).

(** The four wrappers [unwrapZodType] strips. *)
Inductive Wrapper :=
| WOptional
| WNullable
| WDefault (defaultValue : unit -> JsVal)
| WEffects.

Definition apply_wrapper (w : Wrapper) (t : ZodType) : ZodType :=
  match w with
  | WOptional => ZodOptional t
  | WNullable => ZodNullable t
  | WDefault d => ZodDefault t d
  | WEffects => ZodEffects t
  end.

(** [wrap [w1; ...; wn] base] is [w1 (... (wn base))]. *)
Definition wrap (ws : list Wrapper) (base : ZodType) : ZodType :=
  foldr apply_wrapper base ws.

Definition is_wrapper (t : ZodType) : bool :=
  match t with
  | ZodOptional _ | ZodNullable _ | ZodDefault _ _ | ZodEffects _ => true
  | _ => false
  end.

(** The primitives of the specification: [Text], [Integer], [Boolean],
    [Enum], [List]. *)
Definition recognized_primitive (t : ZodType) : bool :=
  match t with
  | ZodString | ZodNumber | ZodBoolean | ZodEnum _ | ZodArray _ => true
  | _ => false
  end.

(** "The field declares an explicit default", however the default wrapper
    is nested among the other wrappers: the outermost one found. *)
Fixpoint spec_declared_default (t : ZodType) : option (unit -> JsVal) :=
  match t with
  | ZodDefault _ defaultValue => Some defaultValue
  | ZodOptional inner | ZodNullable inner | ZodEffects inner =>
      spec_declared_default inner
  | _ => None
  end.

(** The field [fieldName] of [schema] has an enumeration as base type. *)
Definition is_enum_field (schema : ZodObject) (fieldName : JsString) : Prop :=
  exists t options,
    shape_get (shape schema) fieldName = EZod t /\
    unwrap_loop t = ZodEnum options.

(** [s] between double quotes. *)
Definition quoted (s : JsString) : JsString := 0x22 :: s ++ [0x22].

End Spec.

(** ** What the inputs show

    [JSON.stringify] on array elements, and the [value] and [checked]
    properties [renderField] gives the inputs. *)

Module Inputs.
Import Js Zod DynamicForm.

Definition hex_digit (d : N) : N :=
  if d <? 10 then 0x30 + d else 0x61 + (d - 10).

(** [UnicodeEscape]: a backslash, [u] and four lower-case hex digits. *)
Definition unicode_escape (c : N) : JsString :=
  [0x5C; 0x75;
   hex_digit ((c / 0x1000) mod 16); hex_digit ((c / 0x100) mod 16);
   hex_digit ((c / 0x10) mod 16); hex_digit (c mod 16)].

Definition is_high_surrogate (c : N) : bool := (0xD800 <=? c) && (c <=? 0xDBFF).
Definition is_low_surrogate (c : N) : bool := (0xDC00 <=? c) && (c <=? 0xDFFF).

(** The text of one code unit that is not half of a surrogate pair. *)
Definition escape_unit (c : N) : JsString :=
  if c =? 0x08 then [0x5C; 0x62]
  else if c =? 0x09 then [0x5C; 0x74]
  else if c =? 0x0A then [0x5C; 0x6E]
  else if c =? 0x0C then [0x5C; 0x66]
  else if c =? 0x0D then [0x5C; 0x72]
  else if c =? 0x22 then [0x5C; 0x22]
  else if c =? 0x5C then [0x5C; 0x5C]
  else if (c <? 0x20) || is_high_surrogate c || is_low_surrogate c
       then unicode_escape c
  else [c].

(** The inside of [QuoteJSONString]: a surrogate pair is kept, every
    other code unit goes through [escape_unit]. *)
Fixpoint escape_units (s : JsString) : JsString :=
  match s with
  | [] => []
  | c :: r =>
      if is_high_surrogate c then
        match r with
        | d :: r' =>
            if is_low_surrogate d then c :: d :: escape_units r'
            else unicode_escape c ++ escape_units r
        | [] => unicode_escape c
        end
      else escape_unit c ++ escape_units r
  end.

(** [QuoteJSONString] *)
Definition QuoteJSONString (s : JsString) : JsString :=
  0x22 :: escape_units s ++ [0x22].

(** The text [JSON.stringify] gives a value at an array position, where
    [undefined] prints as [null]; numbers that are not finite print as
    [null].  The text of an object depends on the order of its
    properties, which [VObj] does not record: it has no text here. *)
Fixpoint serialize_element (v : JsVal) : option JsString :=
  match v with
  | VUndefined | VNull => Some (js "null")
  | VBool true => Some (js "true")
  | VBool false => Some (js "false")
  | VNum (Finite negative m e) => Some (Number_toString (Finite negative m e))
  | VNum _ => Some (js "null")
  | VStr s => Some (QuoteJSONString s)
  | VArr elems =>
      match fold_right
              (fun e acc =>
                 match serialize_element e, acc with
                 | Some t, Some ts => Some (t :: ts)
                 | _, _ => None
                 end) (Some []) elems with
      | Some texts => Some (js "[" ++ join texts (js ",") ++ js "]")
      | None => None
      end
  | VObj _ => None
  end.

(** [value] of the text input (source line 230): [field.value || ""]. *)
Definition text_input_value (fieldValue : JsVal) : JsVal :=
  if ToBoolean fieldValue then fieldValue else VStr [].

(** [value] of the number input (source line 257): [field.value ?? ""]. *)
Definition number_input_value (fieldValue : JsVal) : JsVal :=
  if is_nullish fieldValue then VStr [] else fieldValue.

(** The number input is an [<input type="number">] (source line 254):
    the text in it reaches the handler as [e.target.value] only when it
    is a valid floating-point number of HTML, an optional [-], digits or
    digits with a fraction or a fraction alone, and an optional exponent;
    the value of the element is the empty string otherwise. *)
Definition valid_unsigned_number (text : JsString) : bool :=
  let '(ip, r1) := span_digits 10 text in
  let after_fraction :=
    match r1 with
    | [] => match ip with [] => None | _ :: _ => Some [] end
    | c :: r =>
        if c =? 0x2E then
          match span_digits 10 r with
          | (_ :: _, r2) => Some r2
          | ([], _) => None
          end
        else match ip with [] => None | _ :: _ => Some r1 end
    end in
  match after_fraction with
  | Some r2 =>
      match parse_exponent r2 with Some _ => true | None => false end
  | None => false
  end.

Definition valid_floating_point_number (text : JsString) : bool :=
  match text with
  | c :: r => if c =? 0x2D then valid_unsigned_number r
              else valid_unsigned_number text
  | [] => false
  end.

(** [e.target.value] of the number input when its text is [text]. *)
Definition number_input_target_value (text : JsString) : JsString :=
  if valid_floating_point_number text then text else [].

(** [checked] of the switch (source line 284). *)
Definition switch_checked (fieldValue : JsVal) : bool := ToBoolean fieldValue.

(** [value] of the array input (source lines 363-369). *)
Definition array_input_value (fieldValue : JsVal) : option JsVal :=
  if is_nullish fieldValue then Some (VStr [])
  else if isArray fieldValue then
    match serialize_element fieldValue with
    | Some text => Some (VStr text)
    | None => None
    end
  else Some (if ToBoolean fieldValue then fieldValue else VStr []).

(** The widget of a base type, as the [switch] of [renderField] selects
    it (source lines 210-398). *)
Definition widget_of (baseType : ZodType) : Widget :=
  match baseType with
  | ZodString => TextInput
  | ZodNumber => NumberInput
  | ZodBoolean => SwitchToggle
  | ZodEnum options => SelectList options
  | ZodArray _ => ArrayInput
  | _ => NoWidget
  end.

End Inputs.

(** ** Shapes and errors *)

Module Shapes.
Import Js Zod DynamicForm.

(** The in-memory shape the renderer of a base type works with. *)
Definition has_shape (baseType : ZodType) (v : JsVal) : Prop :=
  match baseType with
  | ZodBoolean => exists b, v = VBool b
  | ZodString => exists s, v = VStr s
  | ZodEnum options =>
      exists s, v = VStr s /\ (s ∈ options \/ (options = [] /\ s = []))
  | ZodNumber => exists n, v = VNum n /\ isNaN n = false
  | ZodArray _ => isArray v = true
  | _ => True
  end.

(** What [defaultValues] throws at a property that is no Zod node. *)
Definition defaultValues_error (key : JsString) (entry : ShapeEntry) : Exn :=
  match entry with
  | EUndefined =>
      Error (js "Schema error: schema.shape['" ++ key
               ++ js "'] is undefined. Check schema definition.")
  | ENoDef => TypeError
  | _ => Error invalid_schema_message
  end.

(** A row whose values can all be converted to a string and to a
    number: none is, or holds in an array, a plain object with an own
    property [toString]. *)
Definition convertible (initialValues : gmap JsString JsVal) : Prop :=
  map_Forall (fun _ v => conversion_throws v = false) initialValues.

Definition is_widget_change (ev : Event) : bool :=
  match ev with WidgetChange _ _ => true | _ => false end.

(** A number without a fraction: an integer. *)
Definition is_integer (n : Number) : bool :=
  match n with
  | Finite _ _ e => (0 <=? e)%Z
  | _ => false
  end.

End Shapes.

(** * Properties *)

Import Js Zod DynamicForm Spec Inputs Shapes.

(** Two facts of concrete schemas and rows that hold by evaluation: a
    name is none of the keys, and the values of a row can be
    converted. *)
Ltac not_a_key :=
  match goal with
  | |- ?k ∉ ?ks => apply (bool_decide_eq_false_1 (k ∈ ks)); reflexivity
  end.

Ltac convertible_row :=
  unfold convertible;
  repeat (apply map_Forall_insert_2; [reflexivity|]);
  first [apply map_Forall_empty | by apply map_Forall_singleton].

(** ** Strings *)

Section Strings.

Implicit Types (s p inner : JsString) (c d : N).

Lemma startsWith_unit s c :
  startsWith s [c] = true <-> exists r, s = c :: r.
Proof.
  split.
  - destruct s as [|x r]; simpl; [discriminate|].
    rewrite andb_true_r. intros H%N.eqb_eq. subst. by exists r.
  - intros [r ->]. simpl. by rewrite N.eqb_refl.
Qed.

Lemma endsWith_unit s c :
  endsWith s [c] = true <-> exists r, s = r ++ [c].
Proof.
  unfold endsWith. simpl (rev [c]). rewrite startsWith_unit. split.
  - intros [r Hr]. exists (rev r).
    rewrite <- (rev_involutive s), Hr. simpl. done.
  - intros [r ->]. exists (rev r). by rewrite rev_app_distr.
Qed.

(** A string that starts with one unit and ends with a different one has
    both, around an inner part. *)
Lemma delimited s c d :
  c <> d ->
  startsWith s [c] = true -> endsWith s [d] = true ->
  exists inner, s = c :: inner ++ [d].
Proof.
  intros Hcd [r ->]%startsWith_unit [q Hq]%endsWith_unit.
  destruct q as [|x q]; simpl in Hq.
  - injection Hq as -> _. done.
  - injection Hq as -> ->. by exists q.
Qed.

Lemma slice_inner c d inner : slice (c :: inner ++ [d]) 1 (-1) = inner.
Proof.
  unfold slice. simpl length. rewrite length_app. simpl length.
  replace (1 <? 0)%Z with false by done.
  replace (-1 <? 0)%Z with true by done.
  rewrite Z.min_l by lia. rewrite Z.max_l by lia.
  change (Z.to_nat 1) with 1%nat. simpl drop. rewrite drop_0.
  replace (Z.to_nat _) with (length inner) by lia.
  by rewrite take_app_length.
Qed.

Lemma split_not_nil s c : split s c <> [].
Proof.
  destruct s as [|x r]; simpl; [done|].
  destruct (x =? c); [done|]. by destruct (split r c).
Qed.

(** [split] cuts at every separator: one more piece than separators. *)
Lemma split_length s c :
  length (split s c) = S (length (filter (fun x => x = c) s)).
Proof.
  induction s as [|x r IH]; simpl; [done|].
  destruct (N.eqb_spec x c) as [->|Hne].
  - rewrite filter_cons_True by done. simpl. by rewrite IH.
  - rewrite filter_cons_False by done.
    destruct (split r c) eqn:E; [by apply split_not_nil in E|].
    simpl in *. done.
Qed.

(** Joining the pieces with the separator gives the string back. *)
Lemma join_split s c : join (split s c) [c] = s.
Proof.
  induction s as [|x r IH]; simpl; [done|].
  destruct (N.eqb_spec x c) as [->|Hne].
  - destruct (split r c) eqn:E; [by apply split_not_nil in E|].
    simpl in *. by rewrite IH.
  - destruct (split r c) as [|p ps] eqn:E; [by apply split_not_nil in E|].
    destruct ps; simpl in *; by rewrite <- IH.
Qed.

Lemma trimStart_length s : (length (trimStart s) <= length s)%nat.
Proof.
  induction s as [|x r IH]; simpl; [lia|].
  destruct (is_white_space x); simpl; lia.
Qed.

End Strings.

(** ** Reductions that assign one key per step *)

Section Reduce.

Variable value_of : JsString -> Result JsVal.

Lemma assign_ok acc key v :
  value_of key = Ok v ->
  assign value_of acc key =
    Ok (if decide (key = js "__proto__") then acc else <[key := v]> acc).
Proof. unfold assign. by intros ->. Qed.

Lemma assign_inv acc key m :
  assign value_of acc key = Ok m ->
  exists v, value_of key = Ok v /\
    m = if decide (key = js "__proto__") then acc else <[key := v]> acc.
Proof.
  unfold assign. destruct (value_of key) as [v|e]; simpl; [|discriminate].
  intros [= <-]. by exists v.
Qed.

(** What the result holds under a name: the value computed for it when
    the name was visited and is not [__proto__], what the accumulator had
    otherwise. *)
Lemma reduce_assign_lookup ks : forall acc m,
  reduce (assign value_of) ks acc = Ok m ->
  forall k, m !! k =
    if decide (k ∈ ks /\ k <> js "__proto__")
    then match value_of k with Ok v => Some v | Throw _ => None end
    else acc !! k.
Proof.
  induction ks as [|x ks IH]; intros acc m Hred k; simpl in Hred.
  - injection Hred as <-. rewrite decide_False; [done|].
    intros [[]%not_elem_of_nil _].
  - destruct (assign value_of acc x) as [acc'|e] eqn:Hx; simpl in Hred;
      [|discriminate].
    apply assign_inv in Hx as (v & Hv & ->).
    rewrite (IH _ _ Hred k).
    destruct (decide (k ∈ ks /\ k <> js "__proto__")) as [[Hin Hp]|Hnin].
    + rewrite decide_True; [done | split; [by right | done]].
    + destruct (decide (k ∈ x :: ks /\ k <> js "__proto__"))
        as [[[->|Hin]%elem_of_cons Hp]|Hout].
      * rewrite decide_False by done. by rewrite Hv, lookup_insert_eq.
      * tauto.
      * destruct (decide (x = js "__proto__")) as [Hx|Hx]; [done|].
        destruct (decide (k = x)) as [->|Hne]; [|by rewrite lookup_insert_ne].
        destruct Hout. split; [left | congruence].
Qed.

Lemma reduce_assign_ok ks :
  (forall k, k ∈ ks -> exists v, value_of k = Ok v) ->
  forall acc, exists m, reduce (assign value_of) ks acc = Ok m.
Proof.
  induction ks as [|x ks IH]; intros Hall acc; simpl; [by eexists|].
  destruct (Hall x) as [v Hv]; [left|].
  rewrite (assign_ok _ _ _ Hv). simpl.
  apply IH. intros k Hk. apply Hall. by right.
Qed.

Lemma reduce_assign_all_ok ks : forall acc m,
  reduce (assign value_of) ks acc = Ok m ->
  forall k, k ∈ ks ->
  exists v, value_of k = Ok v /\ (k <> js "__proto__" -> m !! k = Some v).
Proof.
  intros acc m Hred k Hk.
  assert (exists v, value_of k = Ok v) as [v Hv].
  { revert acc Hred. induction ks as [|x ks IH]; intros acc Hred;
      [by apply elem_of_nil in Hk|].
    simpl in Hred.
    destruct (assign value_of acc x) as [acc'|e] eqn:Hx; simpl in Hred;
      [|discriminate].
    apply assign_inv in Hx as (v & Hv & ->).
    apply elem_of_cons in Hk as [->|Hk]; [by exists v|].
    by apply (IH Hk _ Hred). }
  exists v. split; [done|]. intros Hp.
  rewrite (reduce_assign_lookup _ _ _ Hred k).
  rewrite decide_True by done. by rewrite Hv.
Qed.

(** The result has exactly the names that were visited, [__proto__]
    apart, on top of the initial accumulator. *)
Lemma reduce_assign_dom ks acc m :
  reduce (assign value_of) ks acc = Ok m ->
  forall k, k ∈ dom m <-> k ∈ dom acc \/ (k ∈ ks /\ k <> js "__proto__").
Proof.
  intros Hred k. rewrite !elem_of_dom.
  rewrite (reduce_assign_lookup _ _ _ Hred k).
  destruct (decide (k ∈ ks /\ k <> js "__proto__")) as [[Hin Hp]|Hnin].
  - destruct (reduce_assign_all_ok _ _ _ Hred k Hin) as (v & -> & _).
    split; [by right | by eexists].
  - tauto.
Qed.

(** Started from the empty object on names none of which is
    [__proto__], the result has exactly these names. *)
Lemma reduce_assign_dom_keys ks m :
  js "__proto__" ∉ ks ->
  reduce (assign value_of) ks ∅ = Ok m ->
  dom m = list_to_set ks.
Proof.
  intros Hproto Hred. apply set_eq. intros k.
  rewrite (reduce_assign_dom _ _ _ Hred k), dom_empty, elem_of_empty.
  rewrite elem_of_list_to_set. split; [tauto|].
  intros Hk. right. split; [done|]. by intros ->.
Qed.

End Reduce.

(** ** Schemas *)

Section Schemas.

Implicit Types (schema : ZodObject) (key : JsString).

Lemma schema_ok_get schema key :
  schema_ok schema = true -> key ∈ keys schema ->
  exists t, shape_get (shape schema) key = EZod t.
Proof.
  unfold schema_ok. rewrite forallb_forall. intros Hok Hin.
  apply list_elem_of_In, Hok in Hin.
  destruct (shape_get (shape schema) key); try discriminate. by eexists.
Qed.

Lemma schema_not_ok schema :
  schema_ok schema = false ->
  exists key, key ∈ keys schema /\ is_zod (shape_get (shape schema) key) = false.
Proof.
  unfold schema_ok. generalize (shape schema) as entries. intros entries.
  induction (keys schema) as [|k ks IH]; simpl; [discriminate|].
  destruct (is_zod (shape_get entries k)) eqn:He; simpl.
  - intros (key & Hin & Hbad)%IH. exists key. split; [by right | done].
  - intros _. exists k. split; [left | done].
Qed.

End Schemas.

(** ** The two value sets, one key at a time *)

Section ValueSets.

Implicit Types (schema : ZodObject) (key : JsString) (t : ZodType).
Implicit Types (initialValues : gmap JsString JsVal).

Lemma unwrapZodType_zod t : unwrapZodType (EZod t) = Ok (unwrap_loop t).
Proof. reflexivity. Qed.

Lemma default_value_zod schema key t :
  shape_get (shape schema) key = EZod t ->
  default_value schema key =
    Ok match t with
       | ZodDefault _ defaultValue => defaultValue tt
       | _ => switch_default (unwrap_loop t)
       end.
Proof. unfold default_value. intros ->. by destruct t. Qed.

Lemma own_or_undefined_plain initialValues key :
  initialValues !! js "hasOwnProperty" = None ->
  own_or_undefined initialValues key =
    Ok (default VUndefined (initialValues !! key)).
Proof.
  unfold own_or_undefined. intros ->. by destruct (initialValues !! key).
Qed.

Lemma own_or_undefined_shadowed initialValues key :
  is_Some (initialValues !! js "hasOwnProperty") ->
  own_or_undefined initialValues key = Throw TypeError.
Proof. unfold own_or_undefined. by intros [v ->]. Qed.

Lemma convertible_lookup initialValues key baseType :
  convertible initialValues ->
  coercion_throws baseType (default VUndefined (initialValues !! key)) = false.
Proof.
  intros Hconv. destruct (initialValues !! key) as [v|] eqn:Hv; simpl.
  - apply Hconv in Hv. destruct baseType; simpl; try done.
    rewrite Hv. apply andb_false_r.
  - by destruct baseType.
Qed.

Lemma initial_value_zod schema initialValues key t :
  initialValues !! js "hasOwnProperty" = None ->
  coercion_throws (unwrap_loop t)
    (default VUndefined (initialValues !! key)) = false ->
  shape_get (shape schema) key = EZod t ->
  initial_value schema initialValues key =
    Ok (coerce_initial (unwrap_loop t) (default VUndefined (initialValues !! key))).
Proof.
  unfold initial_value. intros Hrow Hconv ->. simpl.
  rewrite (own_or_undefined_plain _ _ Hrow). simpl. by rewrite Hconv.
Qed.

(** A value was computed: it is the coercion of what the row holds. *)
Lemma initial_value_ok_inv schema initialValues key t v :
  initial_value schema initialValues key = Ok v ->
  shape_get (shape schema) key = EZod t ->
  initialValues !! js "hasOwnProperty" = None /\
  v = coerce_initial (unwrap_loop t) (default VUndefined (initialValues !! key)).
Proof.
  unfold initial_value. intros Hv Ht. rewrite Ht in Hv. simpl in Hv.
  destruct (initialValues !! js "hasOwnProperty") eqn:Hrow;
    [by rewrite (own_or_undefined_shadowed _ _ ltac:(by eexists)) in Hv|].
  rewrite (own_or_undefined_plain _ _ Hrow) in Hv. simpl in Hv.
  destruct (coercion_throws _ _); [discriminate|].
  split; [done | congruence].
Qed.

Lemma initial_value_zod_shadowed schema initialValues key t :
  is_Some (initialValues !! js "hasOwnProperty") ->
  shape_get (shape schema) key = EZod t ->
  initial_value schema initialValues key = Throw TypeError.
Proof.
  unfold initial_value. intros Hrow ->. simpl.
  by rewrite (own_or_undefined_shadowed _ _ Hrow).
Qed.

Lemma default_value_not_zod schema key :
  is_zod (shape_get (shape schema) key) = false ->
  exists e, default_value schema key = Throw e.
Proof.
  unfold default_value. destruct (shape_get (shape schema) key);
    simpl; try discriminate; intros _; by eexists.
Qed.

Lemma initial_value_not_zod schema initialValues key :
  is_zod (shape_get (shape schema) key) = false ->
  exists e, initial_value schema initialValues key = Throw e.
Proof.
  unfold initial_value, own_or_undefined.
  destruct (initialValues !! js "hasOwnProperty");
    destruct (shape_get (shape schema) key); simpl; try discriminate;
    intros _; by eexists.
Qed.

Lemma defaultValues_ok schema :
  schema_ok schema = true -> exists dv, defaultValues schema = Ok dv.
Proof.
  intros Hok. apply reduce_assign_ok. intros k Hk.
  destruct (schema_ok_get _ _ Hok Hk) as [t Ht].
  rewrite (default_value_zod _ _ _ Ht). by eexists.
Qed.

Lemma processedInitialValues_ok schema initialValues :
  schema_ok schema = true ->
  initialValues !! js "hasOwnProperty" = None ->
  convertible initialValues ->
  exists pv, processedInitialValues schema initialValues = Ok pv.
Proof.
  intros Hok Hrow Hconv. apply reduce_assign_ok. intros k Hk.
  destruct (schema_ok_get _ _ Hok Hk) as [t Ht].
  rewrite (initial_value_zod _ _ _ _ Hrow (convertible_lookup _ _ _ Hconv) Ht).
  by eexists.
Qed.

Lemma defaultValues_lookup schema dv key t :
  defaultValues schema = Ok dv ->
  key ∈ keys schema ->
  key <> js "__proto__" ->
  shape_get (shape schema) key = EZod t ->
  dv !! key = Some match t with
                   | ZodDefault _ defaultValue => defaultValue tt
                   | _ => switch_default (unwrap_loop t)
                   end.
Proof.
  intros Hdv Hk Hp Ht.
  destruct (reduce_assign_all_ok _ _ _ _ Hdv key Hk) as (v & Hv & ->); [|done].
  rewrite (default_value_zod _ _ _ Ht) in Hv. congruence.
Qed.

Lemma processedInitialValues_lookup schema initialValues pv key t :
  processedInitialValues schema initialValues = Ok pv ->
  key ∈ keys schema ->
  key <> js "__proto__" ->
  shape_get (shape schema) key = EZod t ->
  pv !! key =
    Some (coerce_initial (unwrap_loop t) (default VUndefined (initialValues !! key))).
Proof.
  intros Hpv Hk Hp Ht.
  destruct (reduce_assign_all_ok _ _ _ _ Hpv key Hk) as (v & Hv & ->); [|done].
  by destruct (initial_value_ok_inv _ _ _ _ _ Hv Ht) as [_ ->].
Qed.

(** Neither reduction leaves an own property [__proto__], and neither
    leaves a name that is no key of the schema. *)
Lemma defaultValues_outside schema dv key :
  defaultValues schema = Ok dv ->
  key ∉ keys schema \/ key = js "__proto__" ->
  dv !! key = None.
Proof.
  intros Hdv Hout. rewrite (reduce_assign_lookup _ _ _ _ Hdv key).
  rewrite decide_False; [done|]. intros [? ?]. tauto.
Qed.

Lemma processedInitialValues_outside schema initialValues pv key :
  processedInitialValues schema initialValues = Ok pv ->
  key ∉ keys schema \/ key = js "__proto__" ->
  pv !! key = None.
Proof.
  intros Hpv Hout. rewrite (reduce_assign_lookup _ _ _ _ Hpv key).
  rewrite decide_False; [done|]. intros [? ?]. tauto.
Qed.

(** The brace literal, once its delimiters are known. *)
Lemma parse_pg_array_delimited inner :
  parse_pg_array (0x7B :: inner ++ [0x7D]) =
    Ok (if decide (trim inner = []) then VArr []
        else VArr (map (fun item => VStr (trim item)) (split inner 0x2C))).
Proof.
  unfold parse_pg_array. rewrite slice_inner. by destruct (decide _).
Qed.

Lemma coerce_array_delimited elemType inner :
  coerce_initial (ZodArray elemType) (VStr (0x7B :: inner ++ [0x7D])) =
    if decide (trim inner = []) then VArr []
    else VArr (map (fun item => VStr (trim item)) (split inner 0x2C)).
Proof.
  unfold coerce_initial. simpl isArray. simpl is_nullish. cbv iota.
  replace (startsWith _ (js "{")) with true
    by (symmetry; apply startsWith_unit; by eexists).
  replace (endsWith _ (js "}")) with true
    by (symmetry; apply (endsWith_unit _ 0x7D); by exists (0x7B :: inner)).
  simpl andb. cbv iota. by rewrite parse_pg_array_delimited.
Qed.

End ValueSets.

(** ** Claims about initial-value normalisation of a list field *)

(** C10.  In the array branch of the normalisation, a string that starts
    with ["{"] and ends with ["}"] is such a brace around an inner part,
    and the [try] block returns on it: the empty array when the inner part
    is blank, the trimmed pieces between its commas otherwise.  The
    [catch] fallback is never taken, whatever it is, and every comma cuts:
    there is one more element than commas in the inner part. *)
Theorem C10_brace_branch_never_fails (s : JsString) :
  startsWith s (js "{") = true ->
  endsWith s (js "}") = true ->
  exists inner,
    s = 0x7B :: inner ++ [0x7D] /\
    parse_pg_array s =
      Ok (if decide (trim inner = []) then VArr []
          else VArr (map (fun item => VStr (trim item)) (split inner 0x2C))) /\
    (forall fallback elemType,
       coerce_initial (ZodArray elemType) (VStr s) =
         try_catch (parse_pg_array s) fallback) /\
    (trim inner <> [] ->
     exists items,
       coerce_initial (ZodArray ZodString) (VStr s) = VArr items /\
       length items = S (length (filter (fun c => c = 0x2C) inner))).
Proof.
  intros Hs He.
  destruct (delimited s 0x7B 0x7D ltac:(done) Hs He) as [inner ->].
  exists inner. split; [done|]. split; [apply parse_pg_array_delimited|].
  split.
  - intros fallback elemType.
    by rewrite coerce_array_delimited, parse_pg_array_delimited.
  - intros Hne. rewrite coerce_array_delimited.
    rewrite decide_False by done. eexists. split; [done|].
    by rewrite length_map, split_length.
Qed.

(** C10, at the literal of an array whose first element holds a comma:
    [{"a,b",c}] has three elements. *)
Lemma C10_brace_branch_witness :
  exists inner,
    js "{" ++ quoted (js "a,b") ++ js ",c}" = 0x7B :: inner ++ [0x7D] /\
    parse_pg_array (js "{" ++ quoted (js "a,b") ++ js ",c}") =
      Ok (if decide (trim inner = []) then VArr []
          else VArr (map (fun item => VStr (trim item)) (split inner 0x2C))) /\
    (forall fallback elemType,
       coerce_initial (ZodArray elemType)
         (VStr (js "{" ++ quoted (js "a,b") ++ js ",c}")) =
         try_catch (parse_pg_array (js "{" ++ quoted (js "a,b") ++ js ",c}"))
           fallback) /\
    (trim inner <> [] ->
     exists items,
       coerce_initial (ZodArray ZodString)
         (VStr (js "{" ++ quoted (js "a,b") ++ js ",c}")) = VArr items /\
       length items = S (length (filter (fun c => c = 0x2C) inner))).
Proof.
  apply (C10_brace_branch_never_fails (js "{" ++ quoted (js "a,b") ++ js ",c}"));
    reflexivity.
Defined.

Example comma_inside_element_is_cut :
  coerce_initial (ZodArray ZodString)
    (VStr (js "{" ++ quoted (js "a,b") ++ js ",c}")) =
  VArr [VStr (0x22 :: js "a"); VStr (js "b" ++ [0x22]); VStr (js "c")].
Proof. reflexivity. Qed.



(** X20.  For a schema with a list field [key] (its base type is an
    array; its name is not [__proto__]) and a row without a column
    [hasOwnProperty] whose values can be converted, the normalised value
    set holds for [key]: the
    supplied value itself when it is an array; the empty array when it is
    [null] or [undefined] (or not supplied); for a string ["{" inner "}"],
    the empty array when [inner] is blank and otherwise the trimmed pieces
    of [inner] between its commas, in order; the empty array for every
    other value. *)
Theorem list_field_normalization
    (schema : ZodObject) (initialValues : gmap JsString JsVal)
    (key : JsString) (t elemType : ZodType) :
  schema_ok schema = true ->
  initialValues !! js "hasOwnProperty" = None ->
  convertible initialValues ->
  key ∈ keys schema ->
  key <> js "__proto__" ->
  shape_get (shape schema) key = EZod t ->
  unwrap_loop t = ZodArray elemType ->
  exists processed result,
    processedInitialValues schema initialValues = Ok processed /\
    processed !! key = Some result /\
    let value := default VUndefined (initialValues !! key) in
    (isArray value = true -> result = value) /\
    (is_nullish value = true -> result = VArr []) /\
    (forall inner,
       value = VStr (0x7B :: inner ++ [0x7D]) ->
       result = if decide (trim inner = []) then VArr []
                else VArr (map (fun item => VStr (trim item)) (split inner 0x2C))) /\
    (isArray value = false -> is_nullish value = false ->
     (forall inner, value <> VStr (0x7B :: inner ++ [0x7D])) ->
     result = VArr []).
Proof.
  intros Hok Hrow Hconv Hk Hp Ht Hbase.
  destruct (processedInitialValues_ok schema initialValues Hok Hrow Hconv)
    as [pv Hpv].
  exists pv. eexists. split; [done|].
  split; [by apply (processedInitialValues_lookup _ _ _ _ _ Hpv Hk Hp Ht)|].
  rewrite Hbase. cbv zeta. set (value := default VUndefined _).
  repeat split.
  - intros Harr. unfold coerce_initial. by rewrite Harr.
  - intros Hnull. by destruct value.
  - intros inner ->. apply coerce_array_delimited.
  - intros Harr Hnull Hshape. unfold coerce_initial. rewrite Harr, Hnull.
    destruct value as [| | | |s| |]; try done.
    destruct (startsWith s (js "{")) eqn:Hs; [|done].
    destruct (endsWith s (js "}")) eqn:He; [|done].
    destruct (delimited s 0x7B 0x7D ltac:(done) Hs He) as [inner ->].
    by destruct (Hshape inner).
Qed.

(** At a form with one list field [tags], loaded from a row that holds
    the brace literal [{a,b,c}]: the three strings. *)
Lemma list_field_normalization_witness :
  exists processed,
    processedInitialValues
      {| shape := [(js "tags", EZod (ZodNullable (ZodArray ZodString)))] |}
      {[ js "tags" := VStr (js "{a,b,c}") ]} = Ok processed /\
    processed !! js "tags" =
      Some (VArr [VStr (js "a"); VStr (js "b"); VStr (js "c")]).
Proof.
  destruct (list_field_normalization
              {| shape := [(js "tags", EZod (ZodNullable (ZodArray ZodString)))] |}
              {[ js "tags" := VStr (js "{a,b,c}") ]} (js "tags")
              (ZodNullable (ZodArray ZodString)) ZodString)
    as (processed & result & Hpv & Hlook & _ & _ & Hbrace & _).
  - reflexivity.
  - reflexivity.
  - convertible_row.
  - unfold keys. simpl. left.
  - discriminate.
  - reflexivity.
  - reflexivity.
  - exists processed. split; [exact Hpv|].
    rewrite Hlook. f_equal. exact (Hbrace (js "a,b,c") eq_refl).
Defined.

(** The round trips of the specification, by evaluation. *)
Example list_round_trip_abc :
  coerce_initial (ZodArray ZodString) (VStr (js "{a,b,c}")) =
  VArr [VStr (js "a"); VStr (js "b"); VStr (js "c")].
Proof. reflexivity. Qed.

Example list_round_trip_empty_braces :
  coerce_initial (ZodArray ZodString) (VStr (js "{}")) = VArr [].
Proof. reflexivity. Qed.

Example list_round_trip_null :
  coerce_initial (ZodArray ZodString) VNull = VArr [].
Proof. reflexivity. Qed.

Example list_round_trip_other_shapes :
  coerce_initial (ZodArray ZodString) (VStr (js "a,b")) = VArr [] /\
  coerce_initial (ZodArray ZodString) (VNum (Finite false 3 0)) = VArr [] /\
  coerce_initial (ZodArray ZodString) (VObj ∅) = VArr [] /\
  coerce_initial (ZodArray ZodString) (VArr [VStr (js "x")]) = VArr [VStr (js "x")].
Proof. repeat split. Qed.

(** ** Type unwrapping *)

Section Unwrapping.

Implicit Types (t base : ZodType) (ws : list Wrapper).

Lemma unwrap_loop_base t : is_wrapper (unwrap_loop t) = false.
Proof. induction t; simpl; auto. Qed.

Lemma unwrap_loop_fixed base : is_wrapper base = false -> unwrap_loop base = base.
Proof. by destruct base. Qed.

Lemma unwrap_loop_wrap ws base : unwrap_loop (wrap ws base) = unwrap_loop base.
Proof. induction ws as [|[] ws IH]; simpl; auto. Qed.

Lemma unwrapZodType_base fieldSchema base :
  unwrapZodType fieldSchema = Ok base -> is_wrapper base = false.
Proof.
  destruct fieldSchema; simpl; try discriminate.
  intros [= <-]. apply unwrap_loop_base.
Qed.

End Unwrapping.

(** C9.  Unwrapping is idempotent: whenever it succeeds, unwrapping its
    result gives that result again.  It is independent of the nesting
    order: the result [base] is no wrapper, and any pile of optional,
    nullable, default and effects wrappers around [base], in any order,
    unwraps to [base]. *)
Theorem C9_unwrap_idempotent_order_independent
    (fieldSchema : ShapeEntry) (base : ZodType) (ws ws' : list Wrapper) :
  unwrapZodType fieldSchema = Ok base ->
  Permutation ws ws' ->
  unwrapZodType (EZod base) = Ok base /\
  unwrapZodType (EZod (wrap ws base)) = Ok base /\
  unwrapZodType (EZod (wrap ws' base)) = unwrapZodType (EZod (wrap ws base)).
Proof.
  intros Hbase%unwrapZodType_base _.
  rewrite !unwrapZodType_zod, !unwrap_loop_wrap, (unwrap_loop_fixed _ Hbase).
  done.
Qed.

(** C9 at an optional text field with a default, and the two nesting
    orders of the wrappers around its base type. *)
Lemma C9_unwrap_witness :
  let d := fun _ : unit => VStr (js "x") in
  unwrapZodType (EZod ZodString) = Ok ZodString /\
  unwrapZodType (EZod (wrap [WOptional; WDefault d] ZodString)) = Ok ZodString /\
  unwrapZodType (EZod (wrap [WDefault d; WOptional] ZodString)) =
    unwrapZodType (EZod (wrap [WOptional; WDefault d] ZodString)).
Proof.
  intros d.
  apply (C9_unwrap_idempotent_order_independent
           (EZod (ZodOptional (ZodDefault ZodString d))) ZodString
           [WOptional; WDefault d] [WDefault d; WOptional]).
  - reflexivity.
  - apply perm_swap.
Defined.

(** ** The keys of the two value sets *)

(** C5, where the code misses it.  A column of the row that the schema
    lacks is dropped, unless it is named [hasOwnProperty]: then the read
    of the row (source line 133) calls the column's value, and the
    reduction throws instead of returning a value set.  And a field
    named [__proto__] gets an entry in neither value set: the assignment
    [acc[key] = ...] creates no own property under that name. *)
Lemma C5_hasOwnProperty_column_and_proto_field :
  let schema := {| shape := [(js "name", EZod ZodString)] |} in
  let schema' := {| shape := [(js "name", EZod ZodString);
                              (js "__proto__", EZod ZodString)] |} in
  processedInitialValues schema
      (<[ js "extra" := VBool true ]> {[ js "name" := VStr (js "Alice") ]})
    = Ok {[ js "name" := VStr (js "Alice") ]} /\
  processedInitialValues schema
      (<[ js "hasOwnProperty" := VBool true ]> {[ js "name" := VStr (js "Alice") ]})
    = Throw TypeError /\
  defaultValues schema' = Ok {[ js "name" := VStr [] ]} /\
  processedInitialValues schema' {[ js "name" := VStr (js "Alice") ]}
    = Ok {[ js "name" := VStr (js "Alice") ]}.
Proof. repeat split. Qed.

(** X21.  On a well-formed schema and a row without a column
    [hasOwnProperty] whose values can be converted, both [defaultValues]
    and the normalisation return, and the value set
    of each has an entry for exactly the field names of the schema other
    than [__proto__]: names of the row that the schema lacks get no
    entry, and with distinct field names, none of them [__proto__], there
    are as many entries as fields. *)
Theorem value_sets_have_the_schema_keys
    (schema : ZodObject) (initialValues : gmap JsString JsVal) :
  schema_ok schema = true ->
  initialValues !! js "hasOwnProperty" = None ->
  convertible initialValues ->
  exists dv pv,
    defaultValues schema = Ok dv /\
    processedInitialValues schema initialValues = Ok pv /\
    (forall k, is_Some (dv !! k) <-> k ∈ keys schema /\ k <> js "__proto__") /\
    (forall k, is_Some (pv !! k) <-> k ∈ keys schema /\ k <> js "__proto__") /\
    (NoDup (keys schema) -> js "__proto__" ∉ keys schema ->
     size dv = length (keys schema) /\ size pv = length (keys schema)).
Proof.
  intros Hok Hrow Hconv.
  destruct (defaultValues_ok schema Hok) as [dv Hdv].
  destruct (processedInitialValues_ok schema initialValues Hok Hrow Hconv)
    as [pv Hpv].
  exists dv, pv. split; [done|]. split; [done|].
  pose proof (reduce_assign_dom _ _ _ _ Hdv) as Hd.
  pose proof (reduce_assign_dom _ _ _ _ Hpv) as Hp.
  assert (Hd' : forall k, is_Some (dv !! k) <-> k ∈ keys schema /\ k <> js "__proto__").
  { intros k. rewrite <- elem_of_dom, Hd, dom_empty, elem_of_empty. tauto. }
  assert (Hp' : forall k, is_Some (pv !! k) <-> k ∈ keys schema /\ k <> js "__proto__").
  { intros k. rewrite <- elem_of_dom, Hp, dom_empty, elem_of_empty. tauto. }
  split; [done|]. split; [done|].
  intros Hnd Hproto.
  assert (Hset : forall m : gmap JsString JsVal,
            (forall k, is_Some (m !! k) <-> k ∈ keys schema /\ k <> js "__proto__") ->
            size m = length (keys schema)).
  { intros m Hm. rewrite <- size_dom.
    replace (dom m) with (list_to_set (keys schema) : gset JsString);
      [by apply size_list_to_set|].
    apply set_eq. intros k. rewrite elem_of_list_to_set, elem_of_dom, Hm.
    split; [|tauto]. intros Hk. split; [done|]. by intros ->. }
  split; by apply Hset.
Qed.

(** At a two-field form loaded from a row with a column the schema does
    not have. *)
Lemma value_sets_have_the_schema_keys_witness :
  let schema := {| shape := [(js "name", EZod ZodString);
                             (js "age", EZod (ZodOptional ZodNumber))] |} in
  let initialValues : gmap JsString JsVal :=
    {[ js "name" := VStr (js "Alice"); js "extra" := VBool true ]} in
  exists dv pv,
    defaultValues schema = Ok dv /\
    processedInitialValues schema initialValues = Ok pv /\
    (forall k, is_Some (dv !! k) <-> k ∈ keys schema /\ k <> js "__proto__") /\
    (forall k, is_Some (pv !! k) <-> k ∈ keys schema /\ k <> js "__proto__") /\
    (NoDup (keys schema) -> js "__proto__" ∉ keys schema ->
     size dv = length (keys schema) /\ size pv = length (keys schema)).
Proof.
  intros schema initialValues.
  apply (value_sets_have_the_schema_keys schema initialValues);
    [reflexivity | reflexivity | convertible_row].
Defined.

Example extra_column_is_dropped :
  processedInitialValues
    {| shape := [(js "name", EZod ZodString)] |}
    {[ js "name" := VStr (js "Alice"); js "extra" := VBool true ]}
  = Ok {[ js "name" := VStr (js "Alice") ]}.
Proof. reflexivity. Qed.

(** ** Defaults against normalisation without data *)

(** Without a supplied value, the coercion of a base type is the fallback
    the [switch] of [defaultValues] has for it. *)
Lemma coerce_initial_undefined (baseType : ZodType) :
  coerce_initial baseType VUndefined = switch_default baseType.
Proof.
  destruct baseType as [| | |enumValues| | | | | |]; try reflexivity.
  destruct enumValues as [|first rest]; [reflexivity|].
  simpl. by destruct first.
Qed.

Lemma spec_no_default_not_outermost (t : ZodType) :
  spec_declared_default t = None ->
  forall inner d, t <> ZodDefault inner d.
Proof. intros H inner d ->. discriminate. Qed.

(** C6.  On a well-formed schema, normalising the empty mapping returns,
    and for every field it holds the type-based fallback of the field's
    base type, whether or not the field declares a default: a declared
    default is never applied.  It agrees with [defaultValues] on every
    field whose type is not a default wrapper, so on every field that
    declares no default.  (A field named [__proto__] has an entry in
    neither value set, so the two agree on it as well.) *)
Theorem C6_normalizing_nothing_gives_the_fallbacks (schema : ZodObject) :
  schema_ok schema = true ->
  exists dv pv,
    defaultValues schema = Ok dv /\
    processedInitialValues schema ∅ = Ok pv /\
    forall key t,
      key ∈ keys schema ->
      shape_get (shape schema) key = EZod t ->
      pv !! key = (if decide (key = js "__proto__") then None
                   else Some (switch_default (unwrap_loop t))) /\
      ((forall inner d, t <> ZodDefault inner d) -> dv !! key = pv !! key) /\
      (spec_declared_default t = None -> dv !! key = pv !! key).
Proof.
  intros Hok.
  destruct (defaultValues_ok schema Hok) as [dv Hdv].
  destruct (processedInitialValues_ok schema ∅ Hok (lookup_empty _)
              (map_Forall_empty _)) as [pv Hpv].
  exists dv, pv. split; [done|]. split; [done|].
  intros key t Hk Ht.
  assert (Hp : pv !! key = if decide (key = js "__proto__") then None
                           else Some (switch_default (unwrap_loop t))).
  { destruct (decide (key = js "__proto__")) as [Hproto|Hproto].
    - apply (processedInitialValues_outside _ _ _ _ Hpv). by right.
    - rewrite (processedInitialValues_lookup _ _ _ _ _ Hpv Hk Hproto Ht).
      rewrite lookup_empty. simpl. by rewrite coerce_initial_undefined. }
  assert (Hd : (forall inner d, t <> ZodDefault inner d) -> dv !! key = pv !! key).
  { intros Hnd. rewrite Hp.
    destruct (decide (key = js "__proto__")) as [Hproto|Hproto].
    - apply (defaultValues_outside _ _ _ Hdv). by right.
    - rewrite (defaultValues_lookup _ _ _ _ Hdv Hk Hproto Ht).
      destruct t as [| | | | | | |inner d| |]; try done. by destruct (Hnd inner d). }
  split; [done|]. split; [done|].
  intros Hnone. apply Hd. by apply spec_no_default_not_outermost.
Qed.

(** C6 at a form with a plain field, an enumeration and a number with a
    declared default. *)
Lemma C6_normalizing_nothing_witness :
  let schema :=
    {| shape := [(js "name", EZod ZodString);
                 (js "role", EZod (ZodNullable (ZodEnum [js "admin"; js "user"])));
                 (js "age", EZod (ZodDefault ZodNumber
                                    (fun _ => VNum (Finite false 18 0))))] |} in
  exists dv pv,
    defaultValues schema = Ok dv /\
    processedInitialValues schema ∅ = Ok pv /\
    forall key t,
      key ∈ keys schema ->
      shape_get (shape schema) key = EZod t ->
      pv !! key = (if decide (key = js "__proto__") then None
                   else Some (switch_default (unwrap_loop t))) /\
      ((forall inner d, t <> ZodDefault inner d) -> dv !! key = pv !! key) /\
      (spec_declared_default t = None -> dv !! key = pv !! key).
Proof.
  intros schema.
  apply (C6_normalizing_nothing_gives_the_fallbacks schema).
  reflexivity.
Defined.

Example declared_default_not_invented :
  let schema :=
    {| shape := [(js "age", EZod (ZodDefault ZodNumber
                                   (fun _ => VNum (Finite false 18 0))))] |} in
  defaultValues schema = Ok {[ js "age" := VNum (Finite false 18 0) ]} /\
  processedInitialValues schema ∅ = Ok {[ js "age" := VNum (Finite false 0 0) ]}.
Proof. split; reflexivity. Qed.

(** ** Declared defaults *)

(** C1, as stated, fails: a default wrapper under an optional wrapper is
    a declared default of the field, and [defaultValues] holds the
    fallback of the base type instead. *)
Lemma C1_nested_default_is_not_applied :
  let t := ZodOptional (ZodDefault ZodString (fun _ => VStr (js "x"))) in
  let schema := {| shape := [(js "nick", EZod t)] |} in
  exists d dv,
    spec_declared_default t = Some d /\
    defaultValues schema = Ok dv /\
    dv !! js "nick" = Some (VStr []) /\
    dv !! js "nick" <> Some (d tt).
Proof.
  eexists _, _. split; [reflexivity|]. split; [reflexivity|].
  split; [reflexivity|]. discriminate.
Qed.

(** C1, amended.  On a well-formed schema, a field whose type is a default
    wrapper at the outermost layer gets the declared default, computed by
    calling its producer, whatever is nested inside the wrapper and
    whatever the fallback of the base type would be.  The field is any
    but one named [__proto__], of which nothing is said here. *)
Theorem C1_outermost_default_is_applied
    (schema : ZodObject) (key : JsString) (inner : ZodType)
    (defaultValue : unit -> JsVal) :
  schema_ok schema = true ->
  key ∈ keys schema ->
  key <> js "__proto__" ->
  shape_get (shape schema) key = EZod (ZodDefault inner defaultValue) ->
  exists dv,
    defaultValues schema = Ok dv /\
    dv !! key = Some (defaultValue tt).
Proof.
  intros Hok Hk Hproto Ht.
  destruct (defaultValues_ok schema Hok) as [dv Hdv].
  exists dv. split; [done|].
  by rewrite (defaultValues_lookup _ _ _ _ Hdv Hk Hproto Ht).
Qed.

(** C1, amended, at a number field with an optional wrapper inside the
    default wrapper: the declared [18], not the fallback [0]. *)
Lemma C1_outermost_default_witness :
  let d := fun _ : unit => VNum (Finite false 18 0) in
  let schema := {| shape := [(js "name", EZod ZodString);
                             (js "age", EZod (ZodDefault (ZodOptional ZodNumber) d))] |} in
  exists dv,
    defaultValues schema = Ok dv /\
    dv !! js "age" = Some (d tt).
Proof.
  intros d schema.
  apply (C1_outermost_default_is_applied schema (js "age") (ZodOptional ZodNumber) d).
  - reflexivity.
  - unfold schema, keys. simpl. right. left.
  - discriminate.
  - reflexivity.
Defined.

(** ** Construction of the form *)

Lemma map_throwing_ok {A B} (f : A -> Result B) (l : list A) :
  (forall x, x ∈ l -> exists y, f x = Ok y) ->
  exists ys, map_throwing f l = Ok ys.
Proof.
  induction l as [|x l IH]; intros Hall; simpl; [by eexists|].
  destruct (Hall x) as [y Hy]; [left|]. rewrite Hy. simpl.
  destruct IH as [ys Hys]; [intros z Hz; apply Hall; by right|].
  rewrite Hys. simpl. by eexists.
Qed.

Lemma map_throwing_Forall2 {A B} (f : A -> Result B) (l : list A) (ys : list B) :
  map_throwing f l = Ok ys -> Forall2 (fun x y => f x = Ok y) l ys.
Proof.
  revert ys. induction l as [|x l IH]; simpl; intros ys H.
  - injection H as <-. constructor.
  - destruct (f x) as [y|e] eqn:Hx; simpl in H; [|discriminate].
    destruct (map_throwing f l) as [ys'|e]; simpl in H; [|discriminate].
    injection H as <-. constructor; [done | by apply IH].
Qed.

(** The parts of a run of the component function that returned. *)
Lemma render_inv (schema : ZodObject) dv widgets :
  render schema = Ok (dv, widgets) ->
  defaultValues schema = Ok dv /\
  Forall2 (fun fieldName entry =>
             (let* w := renderField (shape_get (shape schema) fieldName) in
              Ok (fieldName, w)) = Ok entry)
          (keys schema) widgets.
Proof.
  unfold render. destruct (defaultValues schema) as [dv'|e]; simpl; [|discriminate].
  destruct (map_throwing _ (keys schema)) as [ws|e] eqn:Hws; simpl; [|discriminate].
  intros [= <- <-]. split; [done|]. by apply map_throwing_Forall2.
Qed.

Lemma render_widget_of_key (schema : ZodObject) dv widgets key t :
  render schema = Ok (dv, widgets) ->
  key ∈ keys schema ->
  shape_get (shape schema) key = EZod t ->
  (key, widget_of (unwrap_loop t)) ∈ widgets.
Proof.
  intros [_ Hws]%render_inv [i Hi]%list_elem_of_lookup Ht.
  destruct (Forall2_lookup_l _ _ _ _ _ Hws Hi) as (entry & Hentry & Hf).
  rewrite Ht in Hf. simpl in Hf. injection Hf as <-.
  apply list_elem_of_lookup. exists i. by rewrite Hentry.
Qed.

Lemma render_ok (schema : ZodObject) :
  schema_ok schema = true -> exists form, render schema = Ok form.
Proof.
  intros Hok. unfold render.
  destruct (defaultValues_ok schema Hok) as [dv ->]. simpl.
  edestruct (map_throwing_ok
               (fun fieldName =>
                  let* w := renderField (shape_get (shape schema) fieldName) in
                  Ok (fieldName, w)) (keys schema)) as [ws ->].
  - intros k Hk. destruct (schema_ok_get _ _ Hok Hk) as [t ->].
    simpl. by eexists.
  - simpl. by eexists.
Qed.

Lemma render_throws (schema : ZodObject) :
  schema_ok schema = false -> exists e, render schema = Throw e.
Proof.
  intros (key & Hk & Hbad)%schema_not_ok. unfold render.
  destruct (defaultValues schema) as [dv|e] eqn:Hdv; [|by eexists].
  destruct (reduce_assign_all_ok _ _ _ _ Hdv key Hk) as (v & Hv & _).
  destruct (default_value_not_zod _ _ Hbad) as [e He]. congruence.
Qed.

(** C8, as stated, fails: a field whose type unwraps to a date, which is
    no recognized primitive, does not stop the construction; the form is
    built, with no default and no widget for that field. *)
Lemma C8_unrecognized_base_type_is_no_error :
  let t := ZodOptional (ZodOther Kind.ZodDate) in
  let schema := {| shape := [(js "when", EZod t)] |} in
  recognized_primitive (unwrap_loop t) = false /\
  render schema = Ok ({[ js "when" := VUndefined ]}, [(js "when", NoWidget)]).
Proof. split; reflexivity. Qed.

(** C8, amended.  Running the component function throws, and so leaves
    no form, whenever some property of the shape is not a Zod node (it is
    [undefined], [null], or has no [_def] object).  A field whose base
    type is no recognized primitive is no error: its widget is the empty
    placeholder and, unless its type is a default wrapper at the outermost
    layer, its default is [undefined].  And a schema whose properties are
    all Zod nodes (complete, their default producers returning) is built
    in full, such fields included. *)
Theorem C8_construction_and_malformed_descriptors (schema : ZodObject) :
  ((exists key, key ∈ keys schema /\
                is_zod (shape_get (shape schema) key) = false) ->
   exists e, render schema = Throw e) /\
  (forall key t,
     shape_get (shape schema) key = EZod t ->
     recognized_primitive (unwrap_loop t) = false ->
     renderField (shape_get (shape schema) key) = Ok NoWidget /\
     ((forall inner d, t <> ZodDefault inner d) ->
      default_value schema key = Ok VUndefined)) /\
  (schema_ok schema = true ->
   exists dv widgets,
     render schema = Ok (dv, widgets) /\
     forall key t,
       key ∈ keys schema ->
       shape_get (shape schema) key = EZod t ->
       recognized_primitive (unwrap_loop t) = false ->
       (key, NoWidget) ∈ widgets /\
       ((forall inner d, t <> ZodDefault inner d) ->
        key <> js "__proto__" ->
        dv !! key = Some VUndefined)).
Proof.
  assert (Hfb : forall t, recognized_primitive (unwrap_loop t) = false ->
                  widget_of (unwrap_loop t) = NoWidget /\
                  switch_default (unwrap_loop t) = VUndefined).
  { intros t. by destruct (unwrap_loop t). }
  split; [|split].
  - intros (key & Hk & Hbad). apply render_throws.
    destruct (schema_ok schema) eqn:Hok; [|done].
    destruct (schema_ok_get _ _ Hok Hk) as [t Ht]. by rewrite Ht in Hbad.
  - intros key t Ht Hrec. destruct (Hfb t Hrec) as [Hw Hs]. split.
    + rewrite Ht. unfold renderField. simpl.
      f_equal. by destruct (unwrap_loop t).
    + intros Hnd. rewrite (default_value_zod _ _ _ Ht).
      destruct t as [| | | | | | |inner d| |]; try (by rewrite Hs).
      by destruct (Hnd inner d).
  - intros Hok. destruct (render_ok schema Hok) as [[dv widgets] Hform].
    exists dv, widgets. split; [done|].
    intros key t Hk Ht Hrec. destruct (Hfb t Hrec) as [Hw Hs]. split.
    + rewrite <- Hw. by apply (render_widget_of_key _ _ _ _ _ Hform).
    + intros Hnd Hproto. apply render_inv in Hform as [Hdv _].
      rewrite (defaultValues_lookup _ _ _ _ Hdv Hk Hproto Ht).
      destruct t as [| | | | | | |inner d| |]; try (by rewrite Hs).
      by destruct (Hnd inner d).
Qed.

(** C8, amended, at a form with a date next to a text field: it is
    built, the date with the empty placeholder and [undefined]; and with
    an absent descriptor next to them it is not. *)
Lemma C8_construction_witness :
  let schema := {| shape := [(js "name", EZod ZodString);
                             (js "when", EZod (ZodOptional (ZodOther Kind.ZodDate)))] |} in
  (exists dv widgets,
     render schema = Ok (dv, widgets) /\
     (js "when", NoWidget) ∈ widgets /\
     dv !! js "when" = Some VUndefined) /\
  (exists e, render {| shape := shape schema ++ [(js "age", EUndefined)] |} = Throw e).
Proof.
  intros schema. split.
  - destruct (C8_construction_and_malformed_descriptors schema)
      as (_ & _ & Hbuilt).
    destruct (Hbuilt eq_refl) as (dv & widgets & Hform & Hfields).
    exists dv, widgets. split; [exact Hform|].
    destruct (Hfields (js "when") (ZodOptional (ZodOther Kind.ZodDate)))
      as [Hw Hd].
    + unfold schema, keys. simpl. right. left.
    + reflexivity.
    + reflexivity.
    + split; [exact Hw|]. apply Hd; discriminate.
  - destruct (C8_construction_and_malformed_descriptors
                {| shape := shape schema ++ [(js "age", EUndefined)] |})
      as (Hthrows & _).
    apply Hthrows. exists (js "age"). split; [|reflexivity].
    unfold keys. simpl. right. right. left.
Defined.

Example absent_descriptor_stops_construction :
  render {| shape := [(js "name", EZod ZodString); (js "age", EUndefined)] |}
  = Throw (Error (js "Schema error: schema.shape['age'] is undefined. Check schema definition.")).
Proof. reflexivity. Qed.

Example malformed_descriptor_stops_construction :
  render {| shape := [(js "age", ENoDef)] |} = Throw TypeError /\
  render {| shape := [(js "age", EBadDef)] |} = Throw (Error invalid_schema_message).
Proof. split; reflexivity. Qed.

(** ** Integer fields: the two coercions *)

Section Integers.

Implicit Types (s r : JsString) (c : N).

Lemma digit_value_decimal c :
  digit_value 10 c = if is_digit c then Some (c - 0x30) else None.
Proof.
  unfold digit_value, is_digit.
  destruct ((0x30 <=? c) && (c <=? 0x39)) eqn:Hd.
  - apply andb_true_iff in Hd as [H1%N.leb_le H2%N.leb_le].
    replace (c - 0x30 <? 10) with true; [done|].
    symmetry. apply N.ltb_lt. lia.
  - destruct ((0x61 <=? c) && (c <=? 0x7A)) eqn:Hl.
    + apply andb_true_iff in Hl as [H1%N.leb_le H2%N.leb_le].
      replace (c - 0x61 + 10 <? 10) with false; [done|].
      symmetry. apply N.ltb_ge. lia.
    + destruct ((0x41 <=? c) && (c <=? 0x5A)) eqn:Hu; [|done].
      apply andb_true_iff in Hu as [H1%N.leb_le H2%N.leb_le].
      replace (c - 0x41 + 10 <? 10) with false; [done|].
      symmetry. apply N.ltb_ge. lia.
Qed.

Lemma mkFinite_not_NaN negative m e : isNaN (mkFinite negative m e) = false.
Proof.
  unfold mkFinite. destruct (m =? 0); [done|].
  by destruct (strip_zeros _ _ _).
Qed.

End Integers.

Example integer_paths_on_other_strings :
  onChange_number (js "") = VUndefined /\
  coerce_initial ZodNumber (VStr (js "")) = VNum (Finite false 0 0) /\
  onChange_number (js ".5") = VUndefined /\
  coerce_initial ZodNumber (VStr (js ".5")) = VNum (Finite false 5 (-1)) /\
  onChange_number (js "-7.9") = VNum (Finite true 7 0) /\
  coerce_initial ZodNumber VNull = VNum (Finite false 0 0) /\
  coerce_initial ZodNumber VUndefined = VNum (Finite false 0 0).
Proof. repeat split. Qed.

(** ** [JSON.parse]: the fuel is enough *)

Section JsonFuel.

Implicit Types (s r : JsString).

Lemma skip_ws_length s : (length (skip_ws s) <= length s)%nat.
Proof.
  induction s as [|c r IH]; simpl; [lia|].
  destruct (is_json_ws c); simpl; lia.
Qed.

Lemma span_digits_length radix s ds r :
  span_digits radix s = (ds, r) -> length s = (length ds + length r)%nat.
Proof.
  revert ds r. induction s as [|c s IH]; simpl; intros ds r H.
  - by injection H as <- <-.
  - destruct (digit_value radix c).
    + destruct (span_digits radix s) as [ds' r'].
      injection H as <- <-. simpl. by rewrite (IH ds' r').
    + by injection H as <- <-.
Qed.

Lemma strip_sign_length s negative r :
  strip_sign s = (negative, r) -> (length r <= length s)%nat.
Proof.
  unfold strip_sign. intros H.
  repeat case_match; simplify_eq; simpl; lia.
Qed.

Lemma parse_string_body_cons c r :
  parse_string_body (c :: r) =
    if c =? 0x22 then Some ([], r)
    else if c <? 0x20 then None
    else if c =? 0x5C then
      match r with
      | [] => None
      | e :: r1 =>
          if e =? 0x75 then
            match r1 with
            | h1 :: h2 :: h3 :: h4 :: r2 =>
                match span_digits 16 [h1; h2; h3; h4] with
                | ([_; _; _; _] as hs, _) =>
                    match parse_string_body r2 with
                    | Some (str, rest) => Some (digits_value 16 hs :: str, rest)
                    | None => None
                    end
                | _ => None
                end
            | _ => None
            end
          else
            match simple_escape e with
            | Some u =>
                match parse_string_body r1 with
                | Some (str, rest) => Some (u :: str, rest)
                | None => None
                end
            | None => None
            end
      end
    else
      match parse_string_body r with
      | Some (str, rest) => Some (c :: str, rest)
      | None => None
      end.
Proof. reflexivity. Qed.

Lemma parse_string_body_length (n : nat) : forall s str r,
  (length s <= n)%nat ->
  parse_string_body s = Some (str, r) -> (length r < length s)%nat.
Proof.
  induction n as [|n IH]; intros s str r Hn H.
  - destruct s; simpl in *; [discriminate | lia].
  - destruct s as [|c s']; [discriminate|].
    rewrite parse_string_body_cons in H. simpl in Hn.
    destruct (c =? 0x22); [injection H as _ <-; simpl; lia|].
    destruct (c <? 0x20); [discriminate|].
    destruct (c =? 0x5C).
    + destruct s' as [|e r1]; [discriminate|]. simpl in Hn.
      destruct (e =? 0x75).
      * destruct r1 as [|h1 [|h2 [|h3 [|h4 r2]]]]; try discriminate.
        destruct (span_digits 16 [h1; h2; h3; h4]) as [hs rest].
        destruct hs as [|? [|? [|? [|? [|]]]]]; try discriminate.
        destruct (parse_string_body r2) as [[str' rest']|] eqn:E; [|discriminate].
        injection H as _ <-. apply IH in E; simpl in *; lia.
      * destruct (simple_escape e); [|discriminate].
        destruct (parse_string_body r1) as [[str' rest']|] eqn:E; [|discriminate].
        injection H as _ <-. apply IH in E; simpl in *; lia.
    + destruct (parse_string_body s') as [[str' rest']|] eqn:E; [|discriminate].
      injection H as _ <-. apply IH in E; simpl in *; lia.
Qed.

Lemma parse_json_number_length s n r :
  parse_json_number s = Some (n, r) -> (length r < length s)%nat.
Proof.
  unfold parse_json_number. intros H.
  repeat case_match; simplify_eq;
    repeat match goal with
           | E : span_digits _ _ = _ |- _ => apply span_digits_length in E
           | E : strip_sign _ = _ |- _ => apply strip_sign_length in E
           end;
    simpl in *; lia.
Qed.

Lemma parse_value_S fuel s :
  parse_value (S fuel) s =
    match skip_ws s with
    | [] => PFail
    | c :: r =>
        if c =? 0x7B then
          match skip_ws r with
          | [] => PFail
          | c' :: r' =>
              if c' =? 0x7D then POk (VObj ∅) r'
              else Parsed_map VObj (parse_members fuel r ∅)
          end
        else if c =? 0x5B then
          match skip_ws r with
          | [] => PFail
          | c' :: r' =>
              if c' =? 0x5D then POk (VArr []) r'
              else Parsed_map VArr (parse_elements fuel r [])
          end
        else if c =? 0x22 then
          match parse_string_body r with
          | Some (str, rest) => POk (VStr str) rest
          | None => PFail
          end
        else if startsWith (c :: r) (js "true") then
          POk (VBool true) (drop 4 (c :: r))
        else if startsWith (c :: r) (js "false") then
          POk (VBool false) (drop 5 (c :: r))
        else if startsWith (c :: r) (js "null") then
          POk VNull (drop 4 (c :: r))
        else
          match parse_json_number (c :: r) with
          | Some (n, rest) => POk (VNum n) rest
          | None => PFail
          end
    end.
Proof. reflexivity. Qed.

Lemma parse_elements_S fuel s acc :
  parse_elements (S fuel) s acc =
    match parse_value fuel s with
    | POk v r =>
        match skip_ws r with
        | [] => PFail
        | c :: r' =>
            if c =? 0x2C then parse_elements fuel r' (acc ++ [v])
            else if c =? 0x5D then POk (acc ++ [v]) r'
            else PFail
        end
    | PFail => PFail
    | PFuel => PFuel
    end.
Proof. reflexivity. Qed.

Lemma parse_members_S fuel s acc :
  parse_members (S fuel) s acc =
    match skip_ws s with
    | [] => PFail
    | q :: r =>
        if q =? 0x22 then
          match parse_string_body r with
          | None => PFail
          | Some (k, r1) =>
              match skip_ws r1 with
              | [] => PFail
              | c1 :: r2 =>
                  if c1 =? 0x3A then
                    match parse_value fuel r2 with
                    | POk v r3 =>
                        match skip_ws r3 with
                        | [] => PFail
                        | c3 :: r4 =>
                            if c3 =? 0x2C then
                              parse_members fuel r4 (<[k:=v]> acc)
                            else if c3 =? 0x7D then POk (<[k:=v]> acc) r4
                            else PFail
                        end
                    | PFail => PFail
                    | PFuel => PFuel
                    end
                  else PFail
              end
          end
        else PFail
    end.
Proof. reflexivity. Qed.

(** Each reader consumes at least one code unit. *)
Lemma parse_rest_shorter (fuel : nat) : forall s,
  (forall v r, parse_value fuel s = POk v r -> (length r < length s)%nat) /\
  (forall acc l r,
     parse_elements fuel s acc = POk l r -> (length r < length s)%nat) /\
  (forall acc m r,
     parse_members fuel s acc = POk m r -> (length r < length s)%nat).
Proof.
  induction fuel as [|fuel IH]; intros s.
  { repeat split; intros; discriminate. }
  pose proof (skip_ws_length s) as Hs.
  split; [|split].
  - intros v r. rewrite parse_value_S.
    destruct (skip_ws s) as [|c r0]; [discriminate|]. simpl in Hs.
    pose proof (skip_ws_length r0) as Hr0.
    destruct (c =? 0x7B).
    { destruct (skip_ws r0) as [|c' r']; [discriminate|]. simpl in Hr0.
      destruct (c' =? 0x7D); [intros [= _ <-]; lia|].
      destruct (parse_members fuel r0 ∅) eqn:Em; simpl; try discriminate.
      intros [= _ <-]. apply IH in Em. lia. }
    destruct (c =? 0x5B).
    { destruct (skip_ws r0) as [|c' r']; [discriminate|]. simpl in Hr0.
      destruct (c' =? 0x5D); [intros [= _ <-]; lia|].
      destruct (parse_elements fuel r0 []) eqn:Ee; simpl; try discriminate.
      intros [= _ <-]. apply IH in Ee. lia. }
    destruct (c =? 0x22).
    { destruct (parse_string_body r0) as [[str rest]|] eqn:Eb; [|discriminate].
      intros [= _ <-]. apply (parse_string_body_length _ _ _ _ (le_n _)) in Eb. lia. }
    destruct (startsWith _ (js "true"));
      [intros [= _ <-]; rewrite length_drop; simpl; lia|].
    destruct (startsWith _ (js "false"));
      [intros [= _ <-]; rewrite length_drop; simpl; lia|].
    destruct (startsWith _ (js "null"));
      [intros [= _ <-]; rewrite length_drop; simpl; lia|].
    destruct (parse_json_number (c :: r0)) as [[n rest]|] eqn:En; [|discriminate].
    intros [= _ <-]. apply parse_json_number_length in En. simpl in En. lia.
  - intros acc l r. rewrite parse_elements_S.
    destruct (parse_value fuel s) as [v r1| |] eqn:Ev; try discriminate.
    apply IH in Ev. pose proof (skip_ws_length r1) as Hr1.
    destruct (skip_ws r1) as [|c r']; [discriminate|]. simpl in Hr1.
    destruct (c =? 0x2C); [intros Hrec%IH; lia|].
    destruct (c =? 0x5D); [|discriminate]. intros [= _ <-]. lia.
  - intros acc m r. rewrite parse_members_S.
    destruct (skip_ws s) as [|q r0]; [discriminate|]. simpl in Hs.
    destruct (q =? 0x22); [|discriminate].
    destruct (parse_string_body r0) as [[k r1]|] eqn:Eb; [|discriminate].
    apply (parse_string_body_length _ _ _ _ (le_n _)) in Eb.
    pose proof (skip_ws_length r1) as Hr1.
    destruct (skip_ws r1) as [|c1 r2]; [discriminate|]. simpl in Hr1.
    destruct (c1 =? 0x3A); [|discriminate].
    destruct (parse_value fuel r2) as [v r3| |] eqn:Ev; try discriminate.
    apply IH in Ev. pose proof (skip_ws_length r3) as Hr3.
    destruct (skip_ws r3) as [|c3 r4]; [discriminate|]. simpl in Hr3.
    destruct (c3 =? 0x2C); [intros Hrec%IH; lia|].
    destruct (c3 =? 0x7D); [|discriminate]. intros [= _ <-]. lia.
Qed.

(** With two units of fuel per code unit, and one more, no reader runs
    out of fuel. *)
Lemma parse_fuel_enough (fuel : nat) : forall s,
  ((2 * length s + 1 <= fuel)%nat -> parse_value fuel s <> PFuel) /\
  ((2 * length s + 2 <= fuel)%nat ->
   forall acc, parse_elements fuel s acc <> PFuel) /\
  ((2 * length s + 2 <= fuel)%nat ->
   forall acc, parse_members fuel s acc <> PFuel).
Proof.
  induction fuel as [|fuel IH]; intros s.
  { repeat split; intros; lia. }
  pose proof (skip_ws_length s) as Hs.
  split; [|split].
  - intros Hf. rewrite parse_value_S.
    destruct (skip_ws s) as [|c r0]; [discriminate|]. simpl in Hs.
    pose proof (skip_ws_length r0) as Hr0.
    destruct (c =? 0x7B).
    { destruct (skip_ws r0) as [|c' r']; [discriminate|].
      destruct (c' =? 0x7D); [discriminate|].
      destruct (parse_members fuel r0 ∅) eqn:Em; simpl; try discriminate.
      exfalso. revert Em. apply IH. lia. }
    destruct (c =? 0x5B).
    { destruct (skip_ws r0) as [|c' r']; [discriminate|].
      destruct (c' =? 0x5D); [discriminate|].
      destruct (parse_elements fuel r0 []) eqn:Ee; simpl; try discriminate.
      exfalso. revert Ee. apply IH. lia. }
    repeat case_match; discriminate.
  - intros Hf acc. rewrite parse_elements_S.
    destruct (parse_value fuel s) as [v r1| |] eqn:Ev; try discriminate.
    + apply (parse_rest_shorter fuel s) in Ev.
      pose proof (skip_ws_length r1) as Hr1.
      destruct (skip_ws r1) as [|c r']; [discriminate|]. simpl in Hr1.
      destruct (c =? 0x2C); [apply IH; lia|].
      destruct (c =? 0x5D); discriminate.
    + exfalso. revert Ev. apply IH. lia.
  - intros Hf acc. rewrite parse_members_S.
    destruct (skip_ws s) as [|q r0]; [discriminate|]. simpl in Hs.
    destruct (q =? 0x22); [|discriminate].
    destruct (parse_string_body r0) as [[k r1]|] eqn:Eb; [|discriminate].
    apply (parse_string_body_length _ _ _ _ (le_n _)) in Eb.
    pose proof (skip_ws_length r1) as Hr1.
    destruct (skip_ws r1) as [|c1 r2]; [discriminate|]. simpl in Hr1.
    destruct (c1 =? 0x3A); [|discriminate].
    destruct (parse_value fuel r2) as [v r3| |] eqn:Ev; try discriminate.
    + apply (parse_rest_shorter fuel r2) in Ev.
      pose proof (skip_ws_length r3) as Hr3.
      destruct (skip_ws r3) as [|c3 r4]; [discriminate|]. simpl in Hr3.
      destruct (c3 =? 0x2C); [apply IH; lia|].
      destruct (c3 =? 0x7D); discriminate.
    + exfalso. revert Ev. apply IH. lia.
Qed.

(** [JSON_parse] never runs its reader out of fuel: its answer is the
    answer of the grammar. *)
Lemma parse_value_fuel (text : JsString) :
  parse_value (2 * length text + 2) text <> PFuel.
Proof. apply parse_fuel_enough. lia. Qed.

(** More fuel does not change an answer that did not need it. *)
Lemma parse_fuel_monotone (fuel : nat) : forall s,
  (forall p, parse_value fuel s = p -> p <> PFuel ->
             parse_value (S fuel) s = p) /\
  (forall acc p, parse_elements fuel s acc = p -> p <> PFuel ->
                 parse_elements (S fuel) s acc = p) /\
  (forall acc p, parse_members fuel s acc = p -> p <> PFuel ->
                 parse_members (S fuel) s acc = p).
Proof.
  induction fuel as [|fuel IH]; intros s.
  { repeat split; intros; simpl in *; congruence. }
  split; [|split].
  - intros p <- Hp. rewrite (parse_value_S (S fuel)).
    rewrite parse_value_S in Hp |- *.
    destruct (skip_ws s) as [|c r0]; [done|].
    destruct (c =? 0x7B).
    { destruct (skip_ws r0) as [|c' r']; [done|].
      destruct (c' =? 0x7D); [done|].
      destruct (parse_members fuel r0 ∅) eqn:Em; [| |done];
        by rewrite (proj2 (proj2 (IH r0)) _ _ Em). }
    destruct (c =? 0x5B); [|done].
    destruct (skip_ws r0) as [|c' r']; [done|].
    destruct (c' =? 0x5D); [done|].
    destruct (parse_elements fuel r0 []) eqn:Ee; [| |done];
      by rewrite (proj1 (proj2 (IH r0)) _ _ Ee).
  - intros acc p <- Hp. rewrite (parse_elements_S (S fuel)).
    rewrite parse_elements_S in Hp |- *.
    destruct (parse_value fuel s) as [v r1| |] eqn:Ev; [| |done].
    + rewrite (proj1 (IH s) _ Ev) by done.
      destruct (skip_ws r1) as [|c r']; [done|].
      destruct (c =? 0x2C); [|done].
      by apply (IH r').
    + by rewrite (proj1 (IH s) _ Ev).
  - intros acc p <- Hp. rewrite (parse_members_S (S fuel)).
    rewrite parse_members_S in Hp |- *.
    destruct (skip_ws s) as [|q r0]; [done|].
    destruct (q =? 0x22); [|done].
    destruct (parse_string_body r0) as [[k r1]|]; [|done].
    destruct (skip_ws r1) as [|c1 r2]; [done|].
    destruct (c1 =? 0x3A); [|done].
    destruct (parse_value fuel r2) as [v r3| |] eqn:Ev; [| |done].
    + rewrite (proj1 (IH r2) _ Ev) by done.
      destruct (skip_ws r3) as [|c3 r4]; [done|].
      destruct (c3 =? 0x2C); [|done].
      by apply (IH r4).
    + by rewrite (proj1 (IH r2) _ Ev).
Qed.

(** Any fuel above the one [JSON_parse] gives its reader gives the same
    answer. *)
Lemma parse_value_any_fuel (text : JsString) (extra : nat) :
  parse_value (extra + (2 * length text + 2)) text =
  parse_value (2 * length text + 2) text.
Proof.
  induction extra as [|extra IH]; [done|].
  change (S extra + ?n)%nat with (S (extra + n)).
  apply (parse_fuel_monotone _ text); [exact IH | apply parse_value_fuel].
Qed.

End JsonFuel.

(** ** List fields: the edit handler *)

(** C3, as stated, fails: one space is not the empty string and is no
    JSON text, yet the handler stores [null] for it, not the raw input. *)
Lemma C3_blank_input_is_stored_as_null :
  js " " <> [] /\
  JSON_parse (js " ") = Throw SyntaxError /\
  onChange_array (js " ") = VNull /\
  onChange_array (js " ") <> VStr (js " ").
Proof. repeat split; discriminate. Qed.

(** C3, amended.  The edit handler of a list field stores [null] for
    every blank input (empty, or white space only).  For every other
    input it stores the parsed value when the input is a JSON text of an
    array, and the raw input string when the input is a JSON text of
    something else or no JSON text at all.  It returns a value on every
    input, and that value is what the form holds for the field
    afterwards. *)
Theorem C3_list_edit_coercion (value : JsString) :
  (trim value = [] -> onChange_array value = VNull) /\
  (trim value <> [] ->
   forall parsed,
     JSON_parse value = Ok parsed -> isArray parsed = true ->
     onChange_array value = parsed) /\
  (trim value <> [] ->
   forall parsed,
     JSON_parse value = Ok parsed -> isArray parsed = false ->
     onChange_array value = VStr value) /\
  (trim value <> [] ->
   forall e, JSON_parse value = Throw e -> onChange_array value = VStr value) /\
  (forall fieldName elemType st,
     formValues (widget_change (ZodArray elemType) fieldName (Typed value) st)
       !! fieldName = Some (onChange_array value)).
Proof.
  unfold onChange_array. repeat split.
  - intros H. by rewrite decide_True.
  - intros H parsed Hp Harr. rewrite decide_False by done.
    rewrite Hp. simpl. by rewrite Harr.
  - intros H parsed Hp Harr. rewrite decide_False by done.
    rewrite Hp. simpl. by rewrite Harr.
  - intros H e Hp. rewrite decide_False by done. by rewrite Hp.
  - intros fieldName elemType st. simpl. apply lookup_insert_eq.
Qed.

(** C3, amended, at the inputs of the specification: the empty input,
    [["x","y"]], the JSON object [{}] and the unfinished [[1,]. *)
Lemma C3_list_edit_witness :
  onChange_array (js "") = VNull /\
  onChange_array (js "[" ++ quoted (js "x") ++ js "," ++ quoted (js "y") ++ js "]")
    = VArr [VStr (js "x"); VStr (js "y")] /\
  onChange_array (js "{}") = VStr (js "{}") /\
  onChange_array (js "[1,") = VStr (js "[1,").
Proof.
  destruct (C3_list_edit_coercion (js "")) as (Hblank & _).
  destruct (C3_list_edit_coercion
              (js "[" ++ quoted (js "x") ++ js "," ++ quoted (js "y") ++ js "]"))
    as (_ & Harray & _).
  destruct (C3_list_edit_coercion (js "{}")) as (_ & _ & Hother & _).
  destruct (C3_list_edit_coercion (js "[1,")) as (_ & _ & _ & Hbad & _).
  split; [apply Hblank; reflexivity|].
  split; [apply Harray; [discriminate | reflexivity | reflexivity]|].
  split; [apply (Hother ltac:(discriminate) (VObj ∅)); reflexivity|].
  apply (Hbad ltac:(discriminate) SyntaxError); reflexivity.
Defined.

Example list_edit_keeps_malformed_input :
  onChange_array (js "abc") = VStr (js "abc") /\
  onChange_array (js "42") = VStr (js "42") /\
  onChange_array (js "[1, 2") = VStr (js "[1, 2") /\
  onChange_array (js " [ ] ") = VArr [] /\
  onChange_array (js "[1, [true, null]]")
    = VArr [VNum (Finite false 1 0); VArr [VBool true; VNull]].
Proof. repeat split. Qed.

(** ** The reset window *)

Section ResetWindow.

Variable schema : ZodObject.

Lemma enum_change_while_initializing st fieldName payload :
  is_enum_field schema fieldName ->
  isInitializing st = true ->
  step schema st (WidgetChange fieldName payload) = Ok st.
Proof.
  intros (t & options & Ht & Hbase) Hinit. simpl.
  rewrite Ht. simpl. rewrite Hbase.
  destruct payload; simpl; [|done]. by rewrite Hinit.
Qed.

Lemma enum_change_after_window st fieldName value :
  is_enum_field schema fieldName ->
  isInitializing st = false ->
  step schema st (WidgetChange fieldName (Typed value))
    = Ok (field_onChange fieldName (VStr value) st).
Proof.
  intros (t & options & Ht & Hbase) Hinit. simpl.
  rewrite Ht. simpl. rewrite Hbase. simpl. by rewrite Hinit.
Qed.

End ResetWindow.

Example enum_change_dropped_then_passed :
  let schema := {| shape := [(js "role", EZod (ZodEnum [js "admin"; js "user"]))] |} in
  let row : gmap JsString JsVal := {[ js "role" := VStr (js "user") ]} in
  let st := mounted {[ js "role" := VStr (js "admin") ]} in
  (exists st', run schema st [RunEffect (Some row);
                              WidgetChange (js "role") (Typed (js ""))] = Ok st' /\
               onChangeCalls st' = [] /\
               formValues st' !! js "role" = Some (VStr (js "user"))) /\
  (exists st', run schema st [RunEffect (Some row); Timeout;
                              WidgetChange (js "role") (Typed (js "admin"))] = Ok st' /\
               onChangeCalls st' = [(js "role", VStr (js "admin"))] /\
               formValues st' !! js "role" = Some (VStr (js "admin"))).
Proof. split; eexists; repeat split. Qed.

(** * Further properties of the component *)

(** ** Reductions, continued *)

Section ReduceMore.

Lemma reduce_assign_ext (g g' : JsString -> Result JsVal) ks :
  (forall k, k ∈ ks -> g k = g' k) ->
  forall acc, reduce (assign g) ks acc = reduce (assign g') ks acc.
Proof.
  induction ks as [|x ks IH]; intros Hext acc; simpl; [done|].
  unfold assign at 1 3. rewrite <- (Hext x) by left.
  destruct (g x) as [v|e]; simpl; [|done].
  apply IH. intros k Hk. apply Hext. by right.
Qed.

(** The reduction stops at the first key whose value throws. *)
Lemma reduce_assign_first_throw (g : JsString -> Result JsVal) good key rest e :
  (forall k, k ∈ good -> exists v, g k = Ok v) ->
  g key = Throw e ->
  forall acc, reduce (assign g) (good ++ key :: rest) acc = Throw e.
Proof.
  intros Hgood Hkey. induction good as [|x good IH]; intros acc; simpl.
  - unfold assign at 1. by rewrite Hkey.
  - destruct (Hgood x) as [v Hv]; [left|].
    unfold assign at 1. rewrite Hv. simpl.
    apply IH. intros k Hk. apply Hgood. by right.
Qed.

End ReduceMore.

Section ValueSetsMore.

Implicit Types (schema : ZodObject) (key : JsString) (t : ZodType).

Lemma default_value_error schema key :
  is_zod (shape_get (shape schema) key) = false ->
  default_value schema key
    = Throw (defaultValues_error key (shape_get (shape schema) key)).
Proof.
  unfold default_value. by destruct (shape_get (shape schema) key).
Qed.

Lemma is_zod_true e : is_zod e = true -> exists t, e = EZod t.
Proof. destruct e; try discriminate. by eexists. Qed.

Lemma processed_ok_zod schema initialValues pv key :
  processedInitialValues schema initialValues = Ok pv ->
  key ∈ keys schema ->
  exists t, shape_get (shape schema) key = EZod t.
Proof.
  intros Hpv Hk.
  destruct (reduce_assign_all_ok _ _ _ _ Hpv key Hk) as (v & Hv & _).
  apply is_zod_true. destruct (is_zod (shape_get (shape schema) key)) eqn:E; [done|].
  destruct (initial_value_not_zod schema initialValues key E) as [e He].
  congruence.
Qed.

Lemma defaults_ok_zod schema dv key :
  defaultValues schema = Ok dv ->
  key ∈ keys schema ->
  exists t, shape_get (shape schema) key = EZod t.
Proof.
  intros Hdv Hk.
  destruct (reduce_assign_all_ok _ _ _ _ Hdv key Hk) as (v & Hv & _).
  apply is_zod_true. destruct (is_zod (shape_get (shape schema) key)) eqn:E; [done|].
  rewrite (default_value_error _ _ E) in Hv. discriminate.
Qed.

Lemma processed_ok_from_zod schema initialValues :
  (forall k, k ∈ keys schema -> exists t, shape_get (shape schema) k = EZod t) ->
  initialValues !! js "hasOwnProperty" = None ->
  (forall k t, k ∈ keys schema -> shape_get (shape schema) k = EZod t ->
     coercion_throws (unwrap_loop t)
       (default VUndefined (initialValues !! k)) = false) ->
  exists pv, processedInitialValues schema initialValues = Ok pv.
Proof.
  intros Hz Hrow Hconv. apply reduce_assign_ok. intros k Hk.
  destruct (Hz k Hk) as [t Ht].
  rewrite (initial_value_zod _ _ _ _ Hrow (Hconv k t Hk Ht) Ht). by eexists.
Qed.

(** With a column [hasOwnProperty] in the row, the reduction throws at
    the first field. *)
Lemma processed_shadowed schema initialValues :
  (forall k, k ∈ keys schema -> exists t, shape_get (shape schema) k = EZod t) ->
  is_Some (initialValues !! js "hasOwnProperty") ->
  keys schema <> [] ->
  processedInitialValues schema initialValues = Throw TypeError.
Proof.
  intros Hz Hrow Hne. unfold processedInitialValues.
  destruct (keys schema) as [|k ks]; [done|].
  destruct (Hz k) as [t Ht]; [left|].
  simpl. unfold assign at 1.
  by rewrite (initial_value_zod_shadowed _ _ _ _ Hrow Ht).
Qed.

(** *** One coercion at a time *)

Lemma parse_pg_array_is_array s :
  exists items, parse_pg_array s = Ok (VArr items).
Proof. unfold parse_pg_array. destruct (decide _); by eexists. Qed.

Lemma coerce_initial_shape (baseType : ZodType) (v : JsVal) :
  has_shape baseType (coerce_initial baseType v).
Proof.
  destruct baseType as [| | |options|elemType| | | | |];
    unfold has_shape, coerce_initial; try exact I.
  - destruct (is_nullish v); by eexists.
  - destruct (isNaN (ToNumber v)) eqn:E; by eexists.
  - by eexists.
  - destruct (is_nullish v || negb (includes options v)) eqn:E.
    + destruct options as [|first rest]; simpl.
      * exists []. split; [done|]. by right.
      * destruct first as [|c first]; eexists; (split; [done|]); left; left.
    + apply orb_false_iff in E as [_ E%negb_false_iff].
      destruct v; try discriminate. simpl in *.
      apply bool_decide_eq_true in E. eexists. split; [done|]. by left.
  - destruct (isArray v) eqn:Ha; [done|].
    destruct (is_nullish v); [done|].
    destruct v; try done.
    destruct (startsWith s (js "{") && endsWith s (js "}")); [|done].
    by destruct (parse_pg_array_is_array s) as [items ->].
Qed.

Lemma coerce_initial_idempotent (baseType : ZodType) (v : JsVal) :
  coerce_initial baseType (coerce_initial baseType v)
    = coerce_initial baseType v.
Proof.
  pose proof (coerce_initial_shape baseType v) as Hs.
  destruct baseType as [| | |options|elemType| | | | |]; try done;
    unfold has_shape in Hs.
  - destruct Hs as [s Hs]. by rewrite Hs.
  - destruct Hs as (n & Hs & Hn). rewrite Hs. simpl. by rewrite Hn.
  - destruct Hs as (s & Hs & [Hin|[-> ->]]); rewrite Hs; simpl; [|done].
    by rewrite bool_decide_eq_true_2.
  - unfold coerce_initial at 1. by rewrite Hs.
Qed.

(** What a coercion gives can be coerced again. *)
Lemma coerce_initial_convertible (baseType : ZodType) (v : JsVal) :
  coercion_throws baseType (coerce_initial baseType v) = false.
Proof.
  destruct baseType; simpl; try done.
  - by destruct (is_nullish v).
  - by destruct (isNaN (ToNumber v)).
Qed.

Lemma coerce_initial_switch_default (baseType : ZodType) :
  coerce_initial baseType (switch_default baseType) = switch_default baseType.
Proof.
  destruct baseType as [| | |options|elemType| | | | |]; try done.
  destruct options as [|first rest]; simpl; [done|].
  rewrite bool_decide_eq_true_2 by left. done.
Qed.

(** An enumeration keeps a declared option and replaces everything else
    by the first option, or by the empty string when there is none. *)
Lemma coerce_initial_enum options (v : JsVal) :
  (forall s, v = VStr s -> s ∈ options ->
             coerce_initial (ZodEnum options) v = VStr s) /\
  ((forall s, v = VStr s -> s ∉ options) ->
   coerce_initial (ZodEnum options) v = VStr (hd [] options)).
Proof.
  split.
  - intros s -> Hin. simpl. by rewrite bool_decide_eq_true_2.
  - intros Hout. simpl.
    replace (is_nullish v || negb (includes options v)) with true.
    + destruct options as [|first rest]; [done|]. by destruct first.
    + symmetry. destruct v; try done. simpl.
      apply negb_true_iff, bool_decide_eq_false. by apply Hout.
Qed.

End ValueSetsMore.

(** ** [defaultValues], field by field *)

(** X1.  On a well-formed schema [defaultValues] returns the map that
    sends each field name to the declared default when the type of the
    field is a default wrapper at its outermost layer, and otherwise to
    the fallback of the base type reached by unwrapping, so that a default
    wrapper under another wrapper is not used; no other name has an
    entry, and a field named [__proto__] has none either. *)
Theorem defaultValues_field_by_field (schema : ZodObject) :
  schema_ok schema = true ->
  exists dv,
    defaultValues schema = Ok dv /\
    forall key,
      dv !! key =
        if decide (key ∈ keys schema /\ key <> js "__proto__") then
          match shape_get (shape schema) key with
          | EZod (ZodDefault _ defaultValue) => Some (defaultValue tt)
          | EZod t => Some (switch_default (unwrap_loop t))
          | _ => None
          end
        else None.
Proof.
  intros Hok. destruct (defaultValues_ok schema Hok) as [dv Hdv].
  exists dv. split; [done|]. intros key.
  destruct (decide (key ∈ keys schema /\ key <> js "__proto__")) as [[Hk Hp]|Hk].
  - destruct (schema_ok_get _ _ Hok Hk) as [t Ht]. rewrite Ht.
    rewrite (defaultValues_lookup _ _ _ _ Hdv Hk Hp Ht). by destruct t.
  - apply (defaultValues_outside _ _ _ Hdv).
    destruct (decide (key ∈ keys schema)); [|by left].
    right. destruct (decide (key = js "__proto__")); [done | tauto].
Qed.

Lemma defaultValues_field_by_field_witness :
  let schema :=
    {| shape := [(js "name", EZod ZodString);
                 (js "nick", EZod (ZodOptional (ZodDefault ZodString
                                                  (fun _ => VStr (js "x")))));
                 (js "age", EZod (ZodDefault (ZodNullable ZodNumber)
                                    (fun _ => VNum (Finite false 18 0))));
                 (js "__proto__", EZod ZodString)] |} in
  exists dv,
    defaultValues schema = Ok dv /\
    forall key,
      dv !! key =
        if decide (key ∈ keys schema /\ key <> js "__proto__") then
          match shape_get (shape schema) key with
          | EZod (ZodDefault _ defaultValue) => Some (defaultValue tt)
          | EZod t => Some (switch_default (unwrap_loop t))
          | _ => None
          end
        else None.
Proof.
  intros schema. apply (defaultValues_field_by_field schema). reflexivity.
Defined.

(** ** Which error, and when *)

(** X2.  [defaultValues] stops at the first field name, in the order of
    the keys, whose property is no Zod node, and throws the error of that
    property: the "is undefined" error naming the key for [undefined], a
    [TypeError] for [null] or a missing [_def], the invalid-schema error
    otherwise.  What comes after that key is not looked at, and the
    component function throws the same error before any widget is
    built. *)
Theorem defaultValues_throws_at_first_malformed
    (schema : ZodObject) (good rest : list JsString) (key : JsString) :
  keys schema = good ++ key :: rest ->
  (forall k, k ∈ good -> is_zod (shape_get (shape schema) k) = true) ->
  is_zod (shape_get (shape schema) key) = false ->
  defaultValues schema
    = Throw (defaultValues_error key (shape_get (shape schema) key)) /\
  render schema
    = Throw (defaultValues_error key (shape_get (shape schema) key)).
Proof.
  intros Hkeys Hgood Hbad.
  assert (Hdv : defaultValues schema
                = Throw (defaultValues_error key (shape_get (shape schema) key))).
  { unfold defaultValues. rewrite Hkeys.
    apply reduce_assign_first_throw; [|by apply default_value_error].
    intros k [t Ht]%Hgood%is_zod_true.
    rewrite (default_value_zod _ _ _ Ht). by eexists. }
  split; [done|]. unfold render. by rewrite Hdv.
Qed.

Lemma defaultValues_throws_witness :
  let schema := {| shape := [(js "name", EZod ZodString);
                             (js "age", ENoDef);
                             (js "role", EUndefined)] |} in
  defaultValues schema = Throw TypeError /\ render schema = Throw TypeError.
Proof.
  intros schema.
  apply (defaultValues_throws_at_first_malformed schema
           [js "name"] [js "role"] (js "age")).
  - reflexivity.
  - intros k ->%list_elem_of_singleton. reflexivity.
  - reflexivity.
Defined.

(** X3.  Once the component function has returned, the guards of the
    reduction inside the effect are never taken: every property of the
    shape is a Zod node.  On a row without a column [hasOwnProperty] the
    whose values can be converted the reduction returns and the reset
    takes place; on a row with such a column, and a schema with a field,
    the read of the row throws a [TypeError], so that no reset takes
    place and no timeout is scheduled. *)
Theorem effect_after_a_built_form
    (schema : ZodObject) (dv : gmap JsString JsVal)
    (widgets : list (JsString * Widget))
    (initialValues : gmap JsString JsVal) (st : FormState) :
  render schema = Ok (dv, widgets) ->
  (initialValues !! js "hasOwnProperty" = None ->
   convertible initialValues ->
   exists pv,
     processedInitialValues schema initialValues = Ok pv /\
     step schema st (RunEffect (Some initialValues))
       = Ok {| isInitializing := true;
               formValues := pv;
               pendingTimeouts := S (pendingTimeouts st);
               onChangeCalls := onChangeCalls st |}) /\
  (is_Some (initialValues !! js "hasOwnProperty") ->
   keys schema <> [] ->
   processedInitialValues schema initialValues = Throw TypeError /\
   step schema st (RunEffect (Some initialValues)) = Throw TypeError).
Proof.
  intros [Hdv _]%render_inv.
  assert (Hz : forall k, k ∈ keys schema ->
                 exists t, shape_get (shape schema) k = EZod t).
  { intros k Hk. by apply (defaults_ok_zod _ _ _ Hdv). }
  split.
  - intros Hrow Hconv.
    destruct (processed_ok_from_zod _ _ Hz Hrow) as [pv Hpv];
      [intros k t _ _; by apply convertible_lookup|].
    exists pv. split; [done|]. simpl. by rewrite Hpv.
  - intros Hrow Hne. pose proof (processed_shadowed _ _ Hz Hrow Hne) as Hpv.
    split; [done|]. simpl. by rewrite Hpv.
Qed.

Lemma effect_after_a_built_form_witness :
  let schema := {| shape := [(js "name", EZod ZodString)] |} in
  (exists pv,
     processedInitialValues schema {[ js "name" := VStr (js "Ann") ]} = Ok pv /\
     step schema (mounted {[ js "name" := VStr [] ]})
          (RunEffect (Some {[ js "name" := VStr (js "Ann") ]}))
       = Ok {| isInitializing := true;
               formValues := pv;
               pendingTimeouts := 1;
               onChangeCalls := [] |}) /\
  processedInitialValues schema
      (<[ js "hasOwnProperty" := VNull ]> {[ js "name" := VStr (js "Ann") ]})
    = Throw TypeError /\
  step schema (mounted {[ js "name" := VStr [] ]})
       (RunEffect (Some (<[ js "hasOwnProperty" := VNull ]>
                           {[ js "name" := VStr (js "Ann") ]})))
    = Throw TypeError.
Proof.
  intros schema. split.
  - destruct (effect_after_a_built_form schema {[ js "name" := VStr [] ]}
                [(js "name", TextInput)] {[ js "name" := VStr (js "Ann") ]}
                (mounted {[ js "name" := VStr [] ]}) eq_refl) as [Hplain _].
    apply Hplain; [reflexivity | convertible_row].
  - destruct (effect_after_a_built_form schema {[ js "name" := VStr [] ]}
                [(js "name", TextInput)]
                (<[ js "hasOwnProperty" := VNull ]> {[ js "name" := VStr (js "Ann") ]})
                (mounted {[ js "name" := VStr [] ]}) eq_refl) as [_ Hshadowed].
    apply Hshadowed; [by eexists | discriminate].
Defined.

(** ** The normalised value set *)

(** X4.  Every value of the normalised value set, under a field name
    other than [__proto__], has the shape the renderer of its field works
    with: a boolean for a boolean field, a
    string for a text field, a declared option (or the empty string when
    none is declared) for an enumeration, a number that is not [NaN] for
    a number field, an array for a list field. *)
Theorem normalized_values_have_the_field_shape
    (schema : ZodObject) (initialValues pv : gmap JsString JsVal)
    (key : JsString) (t : ZodType) :
  processedInitialValues schema initialValues = Ok pv ->
  key ∈ keys schema ->
  key <> js "__proto__" ->
  shape_get (shape schema) key = EZod t ->
  exists v, pv !! key = Some v /\ has_shape (unwrap_loop t) v.
Proof.
  intros Hpv Hk Hp Ht. eexists.
  split; [by apply (processedInitialValues_lookup _ _ _ _ _ Hpv Hk Hp Ht)|].
  apply coerce_initial_shape.
Qed.

Lemma normalized_values_shape_witness :
  let schema := {| shape := [(js "role", EZod (ZodOptional (ZodEnum [js "admin"; js "user"])));
                             (js "age", EZod ZodNumber)] |} in
  let row : gmap JsString JsVal :=
    {[ js "role" := VNum (Finite false 3 0); js "age" := VStr (js "abc") ]} in
  exists v,
    ({[ js "role" := VStr (js "admin"); js "age" := VNum (Finite false 0 0) ]}
       : gmap JsString JsVal) !! js "role" = Some v /\
    has_shape (unwrap_loop (ZodOptional (ZodEnum [js "admin"; js "user"]))) v.
Proof.
  intros schema row.
  apply (normalized_values_have_the_field_shape schema row _ (js "role")
           (ZodOptional (ZodEnum [js "admin"; js "user"]))).
  - reflexivity.
  - left.
  - discriminate.
  - reflexivity.
Defined.

(** X5.  In the normalised value set an enumeration field, whatever its
    name but [__proto__], holds the
    supplied value when that is a declared option, and otherwise (another
    string, [null], nothing, any other value) the first declared option,
    or the empty string when none is declared. *)
Theorem enum_field_normalization
    (schema : ZodObject) (initialValues pv : gmap JsString JsVal)
    (key : JsString) (t : ZodType) (options : list JsString) :
  processedInitialValues schema initialValues = Ok pv ->
  key ∈ keys schema ->
  key <> js "__proto__" ->
  shape_get (shape schema) key = EZod t ->
  unwrap_loop t = ZodEnum options ->
  let value := default VUndefined (initialValues !! key) in
  (forall s, value = VStr s -> s ∈ options -> pv !! key = Some (VStr s)) /\
  ((forall s, value = VStr s -> s ∉ options) ->
   pv !! key = Some (VStr (hd [] options))).
Proof.
  intros Hpv Hk Hp Ht Hbase value.
  rewrite (processedInitialValues_lookup _ _ _ _ _ Hpv Hk Hp Ht), Hbase.
  fold value. destruct (coerce_initial_enum options value) as [Hin Hout].
  split.
  - intros s Hv Hs. by rewrite (Hin s Hv Hs).
  - intros Hno. by rewrite (Hout Hno).
Qed.

Lemma enum_field_normalization_witness :
  let schema := {| shape := [(js "role", EZod (ZodNullable (ZodEnum [js "admin"; js "user"])))] |} in
  let row : gmap JsString JsVal := {[ js "role" := VStr (js "root") ]} in
  let pv : gmap JsString JsVal := {[ js "role" := VStr (js "admin") ]} in
  let value := default VUndefined (row !! js "role") in
  (forall s, value = VStr s -> s ∈ [js "admin"; js "user"] ->
             pv !! js "role" = Some (VStr s)) /\
  ((forall s, value = VStr s -> s ∉ [js "admin"; js "user"]) ->
   pv !! js "role" = Some (VStr (hd [] [js "admin"; js "user"]))).
Proof.
  intros schema row pv.
  apply (enum_field_normalization schema row pv (js "role")
           (ZodNullable (ZodEnum [js "admin"; js "user"]))).
  - reflexivity.
  - left.
  - discriminate.
  - reflexivity.
  - reflexivity.
Defined.

(** X6.  Normalisation is idempotent: normalising a normalised value set
    again returns it unchanged.  This is for a schema without a field
    named [hasOwnProperty] or [__proto__]: with the first, the value set
    is a row with such a column, which the second normalisation cannot
    read; with the second, the first normalisation may have replaced the
    prototype of the value set. *)
Theorem normalization_is_idempotent
    (schema : ZodObject) (initialValues pv : gmap JsString JsVal) :
  js "hasOwnProperty" ∉ keys schema ->
  js "__proto__" ∉ keys schema ->
  processedInitialValues schema initialValues = Ok pv ->
  processedInitialValues schema pv = Ok pv.
Proof.
  intros Hhop Hproto Hpv.
  destruct (processed_ok_from_zod schema pv) as [pv' Hpv'].
  { intros k Hk. by apply (processed_ok_zod _ _ _ _ Hpv). }
  { apply (processedInitialValues_outside _ _ _ _ Hpv). by left. }
  { intros k t Hk Ht.
    assert (Hp : k <> js "__proto__") by (by intros ->).
    rewrite (processedInitialValues_lookup _ _ _ _ _ Hpv Hk Hp Ht). simpl.
    apply coerce_initial_convertible. }
  rewrite Hpv'. f_equal. apply map_eq. intros k.
  destruct (decide (k ∈ keys schema)) as [Hk|Hk].
  - assert (Hp : k <> js "__proto__") by (by intros ->).
    destruct (processed_ok_zod _ _ _ _ Hpv Hk) as [t Ht].
    rewrite (processedInitialValues_lookup _ _ _ _ _ Hpv' Hk Hp Ht).
    rewrite (processedInitialValues_lookup _ _ _ _ _ Hpv Hk Hp Ht). simpl.
    by rewrite coerce_initial_idempotent.
  - rewrite (processedInitialValues_outside _ _ _ _ Hpv') by (by left).
    by rewrite (processedInitialValues_outside _ _ _ _ Hpv) by (by left).
Qed.

Lemma normalization_is_idempotent_witness :
  let schema := {| shape := [(js "tags", EZod (ZodArray ZodString));
                             (js "age", EZod (ZodOptional ZodNumber));
                             (js "ok", EZod ZodBoolean)] |} in
  processedInitialValues schema
    {[ js "tags" := VArr [VStr (js "a"); VStr (js "b")];
       js "age" := VNum (Finite false 42 0);
       js "ok" := VBool true ]}
  = Ok {[ js "tags" := VArr [VStr (js "a"); VStr (js "b")];
          js "age" := VNum (Finite false 42 0);
          js "ok" := VBool true ]}.
Proof.
  intros schema.
  apply (normalization_is_idempotent schema
           {[ js "tags" := VStr (js "{a, b}");
              js "age" := VStr (js "42");
              js "ok" := VStr (js "yes") ]}).
  - not_a_key.
  - not_a_key.
  - reflexivity.
Defined.

(** X7.  Loading the default values back as initial values changes no
    field that has no default wrapper at its outermost layer: the
    fallbacks of [defaultValues] are fixed points of the normalisation.
    This is for a schema without a field named [hasOwnProperty] or
    [__proto__], as for the idempotence, and with declared defaults that
    can be converted. *)
Theorem defaults_survive_normalization
    (schema : ZodObject) (dv : gmap JsString JsVal) :
  js "hasOwnProperty" ∉ keys schema ->
  js "__proto__" ∉ keys schema ->
  defaultValues schema = Ok dv ->
  convertible dv ->
  exists pv,
    processedInitialValues schema dv = Ok pv /\
    forall key t,
      key ∈ keys schema ->
      shape_get (shape schema) key = EZod t ->
      (forall inner d, t <> ZodDefault inner d) ->
      pv !! key = dv !! key.
Proof.
  intros Hhop Hproto Hdv Hconv.
  destruct (processed_ok_from_zod schema dv) as [pv Hpv].
  { intros k Hk. by apply (defaults_ok_zod _ _ _ Hdv). }
  { apply (defaultValues_outside _ _ _ Hdv). by left. }
  { intros k t _ _. by apply convertible_lookup. }
  exists pv. split; [done|]. intros key t Hk Ht Hnd.
  assert (Hp : key <> js "__proto__") by (by intros ->).
  rewrite (processedInitialValues_lookup _ _ _ _ _ Hpv Hk Hp Ht).
  rewrite (defaultValues_lookup _ _ _ _ Hdv Hk Hp Ht).
  destruct t as [| | | | | | |inner d| |];
    try (simpl default; by rewrite coerce_initial_switch_default).
  by destruct (Hnd inner d).
Qed.

Lemma defaults_survive_normalization_witness :
  let schema := {| shape := [(js "role", EZod (ZodEnum [js "admin"; js "user"]));
                             (js "tags", EZod (ZodNullable (ZodArray ZodString)));
                             (js "when", EZod (ZodOther Kind.ZodDate))] |} in
  let dv : gmap JsString JsVal :=
    {[ js "role" := VStr (js "admin"); js "tags" := VArr [];
       js "when" := VUndefined ]} in
  exists pv,
    processedInitialValues schema dv = Ok pv /\
    forall key t,
      key ∈ keys schema ->
      shape_get (shape schema) key = EZod t ->
      (forall inner d, t <> ZodDefault inner d) ->
      pv !! key = dv !! key.
Proof.
  intros schema dv. apply (defaults_survive_normalization schema dv).
  - not_a_key.
  - not_a_key.
  - reflexivity.
  - convertible_row.
Defined.

(** X8.  For rows without a column [hasOwnProperty], the normalised
    value set depends on the row only through the values it has for the
    field names of the schema, a name without a value counting as
    [undefined]: other names of the row have no influence, and a missing
    value and an explicit [undefined] are treated alike. *)
Theorem normalization_reads_only_schema_fields
    (schema : ZodObject) (initialValues initialValues' : gmap JsString JsVal) :
  initialValues !! js "hasOwnProperty" = None ->
  initialValues' !! js "hasOwnProperty" = None ->
  (forall k, k ∈ keys schema ->
     default VUndefined (initialValues !! k)
       = default VUndefined (initialValues' !! k)) ->
  processedInitialValues schema initialValues
    = processedInitialValues schema initialValues'.
Proof.
  intros Hrow Hrow' Hsame. apply reduce_assign_ext. intros k Hk.
  unfold initial_value.
  destruct (is_undefined (shape_get (shape schema) k)); [done|].
  rewrite (own_or_undefined_plain _ _ Hrow), (own_or_undefined_plain _ _ Hrow').
  by rewrite (Hsame k Hk).
Qed.

Lemma normalization_reads_only_schema_fields_witness :
  let schema := {| shape := [(js "name", EZod ZodString);
                             (js "age", EZod ZodNumber)] |} in
  processedInitialValues schema
    {[ js "name" := VStr (js "Ann"); js "extra" := VBool true ]}
  = processedInitialValues schema
      {[ js "name" := VStr (js "Ann"); js "age" := VUndefined ]}.
Proof.
  intros schema.
  apply (normalization_reads_only_schema_fields schema);
    [reflexivity | reflexivity |].
  intros k Hk. unfold schema, keys in Hk. simpl in Hk.
  apply elem_of_cons in Hk as [->|Hk]; [reflexivity|].
  apply list_elem_of_singleton in Hk as ->. reflexivity.
Defined.

(** ** The widgets *)

(** X9.  When the component function returns, it has built one widget per
    field name, in the order of the keys, next to the default values; the
    widget of a field is the one of its base type, and it is the empty
    placeholder exactly when the base type is no recognized primitive. *)
Theorem render_gives_one_widget_per_key
    (schema : ZodObject) (dv : gmap JsString JsVal)
    (widgets : list (JsString * Widget)) :
  render schema = Ok (dv, widgets) ->
  defaultValues schema = Ok dv /\
  map fst widgets = keys schema /\
  forall key w,
    (key, w) ∈ widgets ->
    exists t,
      shape_get (shape schema) key = EZod t /\
      w = widget_of (unwrap_loop t) /\
      (w = NoWidget <-> recognized_primitive (unwrap_loop t) = false).
Proof.
  unfold render. destruct (defaultValues schema) as [dv'|e]; simpl; [|discriminate].
  destruct (map_throwing _ (keys schema)) as [ws|e] eqn:Hws; simpl; [|discriminate].
  intros [= <- <-]. split; [done|].
  apply map_throwing_Forall2 in Hws.
  induction Hws as [|k [k' w'] ks ws Hk _ IH]; [split; [done|]; by intros ? ? ?%elem_of_nil|].
  destruct IH as [IHk IHw].
  destruct (shape_get (shape schema) k) as [| | |t] eqn:Ht; simpl in Hk;
    try discriminate.
  injection Hk as <- <-. split; [simpl; by rewrite IHk|].
  intros key w [[= -> ->]|Hin]%elem_of_cons; [|by apply IHw].
  exists t. split; [done|]. split; [by destruct (unwrap_loop t)|].
  by destruct (unwrap_loop t).
Qed.

Lemma render_gives_one_widget_per_key_witness :
  let schema := {| shape := [(js "role", EZod (ZodOptional (ZodEnum [js "admin"; js "user"])));
                             (js "when", EZod (ZodOther Kind.ZodDate))] |} in
  let dv : gmap JsString JsVal :=
    {[ js "role" := VStr (js "admin"); js "when" := VUndefined ]} in
  let widgets := [(js "role", SelectList [js "admin"; js "user"]);
                  (js "when", NoWidget)] in
  defaultValues schema = Ok dv /\
  map fst widgets = keys schema /\
  forall key w,
    (key, w) ∈ widgets ->
    exists t,
      shape_get (shape schema) key = EZod t /\
      w = widget_of (unwrap_loop t) /\
      (w = NoWidget <-> recognized_primitive (unwrap_loop t) = false).
Proof.
  intros schema dv widgets.
  apply (render_gives_one_widget_per_key schema dv widgets). reflexivity.
Defined.

(** ** The form over time, continued *)

Section Runs.

Variable schema : ZodObject.

Lemma run_cons st ev evs :
  run schema st (ev :: evs)
    = bind (step schema st ev) (fun st' => run schema st' evs).
Proof. reflexivity. Qed.

Lemma run_app evs evs' : forall st,
  run schema st (evs ++ evs')
    = bind (run schema st evs) (fun st' => run schema st' evs').
Proof.
  induction evs as [|ev evs IH]; intros st; [done|].
  rewrite <- app_comm_cons, !run_cons.
  destruct (step schema st ev) as [st1|e]; simpl; [apply IH | done].
Qed.

Lemma run_invariant (P : FormState -> Prop) :
  (forall st ev st', P st -> step schema st ev = Ok st' -> P st') ->
  forall evs st st', P st -> run schema st evs = Ok st' -> P st'.
Proof.
  intros Hstep. induction evs as [|ev evs IH]; intros st st' HP Hrun.
  - injection Hrun as <-. done.
  - rewrite run_cons in Hrun.
    destruct (step schema st ev) as [st1|e] eqn:Hev; simpl in Hrun; [|discriminate].
    by apply (IH st1 st' (Hstep _ _ _ HP Hev)).
Qed.

Lemma shape_get_in_keys key t :
  shape_get (shape schema) key = EZod t -> key ∈ keys schema.
Proof.
  unfold keys. induction (shape schema) as [|[k e] rest IH]; simpl; [discriminate|].
  destruct (decide (k = key)) as [->|Hne]; [left|].
  intros H. right. by apply IH.
Qed.

Lemma widget_change_cases baseType fieldName payload st :
  widget_change baseType fieldName payload st = st \/
  exists v, widget_change baseType fieldName payload st
              = field_onChange fieldName v st.
Proof.
  destruct baseType, payload; simpl; try (by left); try (right; by eexists).
  destruct (isInitializing st); simpl; [by left | right; by eexists].
Qed.

Lemma step_keeps_keys st ev st' :
  js "__proto__" ∉ keys schema ->
  dom (formValues st) = list_to_set (keys schema) ->
  step schema st ev = Ok st' ->
  dom (formValues st') = list_to_set (keys schema).
Proof.
  intros Hproto Hdom.
  destruct ev as [[initialValues|]| |fieldName payload]; simpl.
  - destruct (processedInitialValues schema initialValues) as [pv|e] eqn:Hpv;
      simpl; [|discriminate].
    intros [= <-]. simpl. by apply (reduce_assign_dom_keys _ _ _ Hproto Hpv).
  - by intros [= <-].
  - destruct (pendingTimeouts st); by intros [= <-].
  - destruct (shape_get (shape schema) fieldName) as [| | |t] eqn:Ht; simpl;
      try discriminate.
    intros [= <-].
    destruct (widget_change_cases (unwrap_loop t) fieldName payload st)
      as [->|[v ->]]; [done|].
    simpl. rewrite dom_insert_L, Hdom.
    apply shape_get_in_keys in Ht.
    apply set_eq. intros k. rewrite elem_of_union, elem_of_singleton.
    rewrite elem_of_list_to_set. split; [intros [->|?]; done | by right].
Qed.

Lemma step_extends_calls st ev st' :
  step schema st ev = Ok st' ->
  exists calls,
    onChangeCalls st' = onChangeCalls st ++ calls /\
    (length calls <= if is_widget_change ev then 1 else 0)%nat /\
    Forall (fun call => call.1 ∈ keys schema) calls.
Proof.
  destruct ev as [[initialValues|]| |fieldName payload]; simpl.
  - destruct (processedInitialValues schema initialValues); simpl; [|discriminate].
    intros [= <-]. exists []. simpl. by rewrite app_nil_r.
  - intros [= <-]. exists []. simpl. by rewrite app_nil_r.
  - destruct (pendingTimeouts st); intros [= <-]; exists []; simpl;
      by rewrite app_nil_r.
  - destruct (shape_get (shape schema) fieldName) as [| | |t] eqn:Ht; simpl;
      try discriminate.
    intros [= <-].
    destruct (widget_change_cases (unwrap_loop t) fieldName payload st)
      as [->|[v ->]].
    + exists []. rewrite app_nil_r. repeat split; [simpl; lia | constructor].
    + exists [(fieldName, v)]. repeat split; [done|].
      constructor; [|constructor]. by apply (shape_get_in_keys _ t).
Qed.

End Runs.

(** X10.  Whatever happens to a form after it was mounted with the
    default values (resets, timeouts, changes of its widgets, in any
    order), it holds a value for exactly the field names of the schema,
    when none of them is [__proto__]. *)
Theorem form_always_holds_the_schema_keys
    (schema : ZodObject) (dv : gmap JsString JsVal)
    (evs : list Event) (st : FormState) :
  js "__proto__" ∉ keys schema ->
  defaultValues schema = Ok dv ->
  run schema (mounted dv) evs = Ok st ->
  forall k, is_Some (formValues st !! k) <-> k ∈ keys schema.
Proof.
  intros Hproto Hdv Hrun k.
  assert (Hdom : dom (formValues st) = list_to_set (keys schema)).
  { apply (run_invariant schema
             (fun st => dom (formValues st) = list_to_set (keys schema))
             (fun st ev st' => step_keeps_keys schema st ev st' Hproto)
             evs (mounted dv) st); [|done].
    simpl. by apply (reduce_assign_dom_keys _ _ _ Hproto Hdv). }
  by rewrite <- elem_of_dom, Hdom, elem_of_list_to_set.
Qed.

Lemma form_always_holds_the_schema_keys_witness :
  let schema := {| shape := [(js "name", EZod ZodString);
                             (js "tags", EZod (ZodArray ZodString))] |} in
  let st := {| isInitializing := false;
               formValues := {[ js "name" := VStr (js "Bob"); js "tags" := VNull ]};
               pendingTimeouts := 0;
               onChangeCalls := [(js "tags", VNull); (js "name", VStr (js "Bob"))] |} in
  is_Some (formValues st !! js "id") <-> js "id" ∈ keys schema.
Proof.
  intros schema st.
  apply (form_always_holds_the_schema_keys schema
           {[ js "name" := VStr []; js "tags" := VArr [] ]}
           [RunEffect (Some {[ js "name" := VStr (js "Ann"); js "id" := VNull ]});
            WidgetChange (js "tags") (Typed (js " "));
            Timeout;
            WidgetChange (js "name") (Typed (js "Bob"))]
           st); [not_a_key | reflexivity | reflexivity].
Defined.

(** X11.  Over any run of the form, the calls of [field.onChange] made
    so far are kept and only extended, by at most one call per widget
    change and only for field names of the schema: a reset or a timeout
    calls no [field.onChange]. *)
Theorem field_onChange_only_on_widget_changes
    (schema : ZodObject) (evs : list Event) (st st' : FormState) :
  run schema st evs = Ok st' ->
  exists calls,
    onChangeCalls st' = onChangeCalls st ++ calls /\
    (length calls <= length (filter is_widget_change evs))%nat /\
    Forall (fun call => call.1 ∈ keys schema) calls.
Proof.
  revert st. induction evs as [|ev evs IH]; intros st Hrun.
  - injection Hrun as <-. exists []. rewrite app_nil_r.
    repeat split; [simpl; lia | constructor].
  - rewrite run_cons in Hrun.
    destruct (step schema st ev) as [st1|e] eqn:Hev; simpl in Hrun; [|discriminate].
    destruct (step_extends_calls _ _ _ _ Hev) as (c1 & H1 & Hl1 & Hk1).
    destruct (IH _ Hrun) as (c2 & H2 & Hl2 & Hk2).
    exists (c1 ++ c2). rewrite H2, H1, app_assoc. split; [done|].
    split; [|by apply Forall_app].
    rewrite length_app.
    destruct (is_widget_change ev) eqn:Hw.
    + rewrite filter_cons_True by (by rewrite Hw). simpl. lia.
    + rewrite filter_cons_False by (rewrite Hw; intros []). lia.
Qed.

Lemma field_onChange_only_on_widget_changes_witness :
  let schema := {| shape := [(js "age", EZod ZodNumber)] |} in
  let st := mounted {[ js "age" := VNum (Finite false 0 0) ]} in
  let evs := [RunEffect (Some {[ js "age" := VStr (js "41") ]}); Timeout;
              WidgetChange (js "age") (Typed (js "42"))] in
  let st' := {| isInitializing := false;
                formValues := {[ js "age" := VNum (Finite false 42 0) ]};
                pendingTimeouts := 0;
                onChangeCalls := [(js "age", VNum (Finite false 42 0))] |} in
  exists calls,
    onChangeCalls st' = onChangeCalls st ++ calls /\
    (length calls <= length (filter is_widget_change evs))%nat /\
    Forall (fun call => call.1 ∈ keys schema) calls.
Proof.
  intros schema st evs st'.
  apply (field_onChange_only_on_widget_changes schema evs st st'). reflexivity.
Defined.

Section Resets.

Variable schema : ZodObject.

Lemma run_resets ivs : forall st st',
  run schema st (map (fun iv => RunEffect (Some iv)) ivs) = Ok st' ->
  pendingTimeouts st' = (pendingTimeouts st + length ivs)%nat /\
  onChangeCalls st' = onChangeCalls st /\
  (ivs <> [] -> isInitializing st' = true) /\
  (ivs = [] -> st' = st) /\
  (forall iv, last ivs = Some iv ->
              processedInitialValues schema iv = Ok (formValues st')).
Proof.
  induction ivs as [|iv ivs IH]; intros st st' Hrun.
  - injection Hrun as <-. repeat split; [simpl; lia | done | discriminate].
  - simpl map in Hrun. rewrite run_cons in Hrun. simpl step in Hrun.
    destruct (processedInitialValues schema iv) as [pv|e] eqn:Hpv;
      simpl in Hrun; [|discriminate].
    destruct (IH _ _ Hrun) as (Hp & Hc & Hi & Hn & Hl). simpl in Hp, Hc.
    repeat split; [simpl; lia | done | | discriminate |].
    + intros _. destruct ivs as [|iv' ivs]; [|by apply Hi].
      by rewrite (Hn eq_refl).
    + intros iv0 Hlast. destruct ivs as [|iv' ivs].
      * injection Hlast as <-. by rewrite (Hn eq_refl).
      * by apply Hl.
Qed.

End Resets.

(** X12.  The callback of every [setTimeout] clears the flag, whichever
    reset scheduled it.  After several resets in a row the first callback
    to run therefore reopens the propagation of changes while the
    callbacks of the later resets are still pending; the form then holds
    the normalised values of the last reset. *)
Theorem first_timeout_ends_the_window_of_every_reset
    (schema : ZodObject) (st st' : FormState)
    (ivs : list (gmap JsString JsVal)) (iv : gmap JsString JsVal) :
  run schema st (map (fun iv => RunEffect (Some iv)) (ivs ++ [iv]) ++ [Timeout])
    = Ok st' ->
  isInitializing st' = false /\
  pendingTimeouts st' = (pendingTimeouts st + length ivs)%nat /\
  processedInitialValues schema iv = Ok (formValues st') /\
  onChangeCalls st' = onChangeCalls st.
Proof.
  rewrite run_app.
  destruct (run schema st (map _ (ivs ++ [iv]))) as [st1|e] eqn:Hrun;
    simpl; [|discriminate].
  destruct (run_resets schema _ _ _ Hrun) as (Hp & Hc & _ & _ & Hl).
  rewrite length_app in Hp. simpl in Hp.
  specialize (Hl iv (last_snoc _ _)).
  rewrite run_cons. cbn [step].
  destruct (pendingTimeouts st1) as [|n] eqn:Hn; [lia|].
  cbn [bind run reduce]. intros [= <-]. simpl. repeat split; [lia | done | done].
Qed.

Lemma first_timeout_ends_the_window_witness :
  let schema := {| shape := [(js "role", EZod (ZodEnum [js "admin"; js "user"]))] |} in
  let st := mounted {[ js "role" := VStr (js "admin") ]} in
  let st' := {| isInitializing := false;
                formValues := {[ js "role" := VStr (js "user") ]};
                pendingTimeouts := 1;
                onChangeCalls := [] |} in
  isInitializing st' = false /\
  pendingTimeouts st' = (pendingTimeouts st + length [(∅ : gmap JsString JsVal)])%nat /\
  processedInitialValues schema {[ js "role" := VStr (js "user") ]}
    = Ok (formValues st') /\
  onChangeCalls st' = onChangeCalls st.
Proof.
  intros schema st st'.
  apply (first_timeout_ends_the_window_of_every_reset schema st st'
           [∅] {[ js "role" := VStr (js "user") ]}).
  reflexivity.
Defined.

(** X13.  The flag starts set: between mounting and the first run of the
    effect, a change of an enumeration field is dropped.  When the effect
    runs without initial values it clears the flag at once, without a
    timeout, and the same change is passed to [field.onChange]. *)
Theorem enum_changes_around_the_first_effect
    (schema : ZodObject) (dv : gmap JsString JsVal)
    (fieldName value : JsString) :
  is_enum_field schema fieldName ->
  step schema (mounted dv) (WidgetChange fieldName (Typed value))
    = Ok (mounted dv) /\
  run schema (mounted dv) [RunEffect None; WidgetChange fieldName (Typed value)]
    = Ok {| isInitializing := false;
            formValues := <[fieldName := VStr value]> dv;
            pendingTimeouts := 0;
            onChangeCalls := [(fieldName, VStr value)] |}.
Proof.
  intros Hf. split.
  - by apply enum_change_while_initializing.
  - rewrite run_cons. simpl step. simpl bind. rewrite run_cons.
    by rewrite (enum_change_after_window schema _ _ value Hf).
Qed.

Lemma enum_changes_around_the_first_effect_witness :
  let schema := {| shape := [(js "role", EZod (ZodEnum [js "admin"; js "user"]))] |} in
  let dv : gmap JsString JsVal := {[ js "role" := VStr (js "admin") ]} in
  step schema (mounted dv) (WidgetChange (js "role") (Typed (js "user")))
    = Ok (mounted dv) /\
  run schema (mounted dv)
      [RunEffect None; WidgetChange (js "role") (Typed (js "user"))]
    = Ok {| isInitializing := false;
            formValues := <[js "role" := VStr (js "user")]> dv;
            pendingTimeouts := 0;
            onChangeCalls := [(js "role", VStr (js "user"))] |}.
Proof.
  intros schema dv.
  apply (enum_changes_around_the_first_effect schema dv (js "role") (js "user")).
  exists (ZodEnum [js "admin"; js "user"]), [js "admin"; js "user"].
  split; reflexivity.
Defined.

(** ** The reset window, for every field *)

Section Window.

Variable schema : ZodObject.



End Window.




(** ** Integer fields: what an edit stores *)

Section IntegerEdits.

Lemma strip_zeros_exponent fuel : forall m e m' e',
  strip_zeros fuel m e = (m', e') -> (e <= e')%Z.
Proof.
  induction fuel as [|fuel IH]; simpl; intros m e m' e' H.
  - injection H as _ <-. lia.
  - destruct (m mod 10 =? 0).
    + apply IH in H. lia.
    + injection H as _ <-. lia.
Qed.

Lemma mkFinite_integer negative m : is_integer (mkFinite negative m 0) = true.
Proof.
  unfold mkFinite. destruct (m =? 0); [done|].
  destruct (strip_zeros _ m 0) as [m' e'] eqn:E.
  apply strip_zeros_exponent in E. simpl. by apply Z.leb_le.
Qed.

Lemma span_digits_all ds rest :
  Forall (fun c => is_digit c = true) ds ->
  match rest with [] => True | c :: _ => is_digit c = false end ->
  span_digits 10 (ds ++ rest) = (ds, rest).
Proof.
  intros Hds Hrest. induction Hds as [|c ds Hc _ IH]; simpl.
  - destruct rest as [|c rest]; [done|].
    simpl. by rewrite digit_value_decimal, Hrest.
  - by rewrite digit_value_decimal, Hc, IH.
Qed.

Lemma digit_not_white_space c : is_digit c = true -> is_white_space c = false.
Proof.
  unfold is_digit, is_white_space.
  intros [H1%N.leb_le H2%N.leb_le]%andb_true_iff.
  repeat (apply orb_false_iff; split);
    try (apply N.eqb_neq; lia).
  apply andb_false_iff. left. apply N.leb_gt. lia.
Qed.

Lemma digit_value_below_ten c : default 0 (digit_value 10 c) < 10.
Proof.
  rewrite digit_value_decimal. unfold is_digit.
  destruct ((0x30 <=? c) && (c <=? 0x39)) eqn:Hd; simpl; [|lia].
  apply andb_true_iff in Hd as [H1%N.leb_le H2%N.leb_le]. lia.
Qed.

(** A run of digits denotes less than the power of ten of its length. *)
Lemma digits_value_bound ds : digits_value 10 ds < 10 ^ N.of_nat (length ds).
Proof.
  unfold digits_value.
  assert (H : forall acc,
            fold_left (fun a c => a * 10 + default 0 (digit_value 10 c)) ds acc
              + 1 <= (acc + 1) * 10 ^ N.of_nat (length ds)).
  { induction ds as [|c ds IH]; intros acc.
    - simpl. lia.
    - cbn [fold_left length]. rewrite Nat2N.inj_succ, N.pow_succ_r'.
      pose proof (IH (acc * 10 + default 0 (digit_value 10 c))) as Hstep.
      pose proof (digit_value_below_ten c) as Hc.
      etransitivity; [exact Hstep|].
      replace ((acc + 1) * (10 * 10 ^ N.of_nat (length ds)))
        with ((acc + 1) * 10 * 10 ^ N.of_nat (length ds)) by ring.
      apply N.mul_le_mono_r. lia. }
  specialize (H 0). lia.
Qed.

End IntegerEdits.

(** X14.  An edit of an integer field stores [undefined] or an integer:
    never [NaN] or a number with a fraction.  For the text of an input of
    at most 308 characters the integer is below [10^308], so within the
    range of doubles: the engine holds a finite integer, never an
    infinity. *)
Theorem number_edit_stores_an_integer (value : JsString) :
  (length value <= 308)%nat ->
  onChange_number value = VUndefined \/
  exists negative m,
    onChange_number value = VNum (mkFinite negative m 0) /\
    m < 10 ^ 308 /\
    is_integer (mkFinite negative m 0) = true.
Proof.
  intros Hlen. unfold onChange_number, parseInt10.
  pose proof (trimStart_length value) as Htrim.
  destruct (strip_sign (trimStart value)) as [negative r] eqn:Hsign.
  apply strip_sign_length in Hsign.
  destruct (span_digits 10 r) as [[|d ds] rest] eqn:Hspan; [by left|].
  apply span_digits_length in Hspan.
  right. rewrite mkFinite_not_NaN. exists negative, (digits_value 10 (d :: ds)).
  split; [done|]. split; [|apply mkFinite_integer].
  eapply N.lt_le_trans; [apply digits_value_bound|].
  apply N.pow_le_mono_r; lia.
Qed.

Lemma number_edit_stores_an_integer_witness :
  onChange_number (js "-12.5") = VUndefined \/
  exists negative m,
    onChange_number (js "-12.5") = VNum (mkFinite negative m 0) /\
    m < 10 ^ 308 /\
    is_integer (mkFinite negative m 0) = true.
Proof.
  apply (number_edit_stores_an_integer (js "-12.5")). simpl. lia.
Defined.

(** X15.  The edit handler of an integer field reads the leading digits
    of the input and nothing after them: for a non-empty run of digits
    that denotes a safe integer, followed by anything that does not start
    with a digit (a decimal point, an exponent, letters), it stores the
    number of the digits alone, so ["7.9"] is stored as [7] and ["1e5"]
    as [1]. *)
Theorem number_edit_drops_what_follows_the_digits
    (ds rest : JsString) (d : N) :
  is_digit d = true ->
  Forall (fun c => is_digit c = true) ds ->
  safe_integer (digits_value 10 (d :: ds)) ->
  match rest with [] => True | c :: _ => is_digit c = false end ->
  onChange_number (d :: ds ++ rest)
    = VNum (mkFinite false (digits_value 10 (d :: ds)) 0) /\
  onChange_number (d :: ds ++ rest) = onChange_number (d :: ds).
Proof.
  intros Hd Hds _ Hrest.
  assert (Hread : forall tail,
            match tail with [] => True | c :: _ => is_digit c = false end ->
            onChange_number (d :: ds ++ tail)
              = VNum (mkFinite false (digits_value 10 (d :: ds)) 0)).
  { intros tail Htail. unfold onChange_number, parseInt10.
    simpl trimStart. rewrite (digit_not_white_space d Hd).
    assert (Hsign : strip_sign (d :: ds ++ tail) = (false, d :: ds ++ tail)).
    { unfold strip_sign. unfold is_digit in Hd.
      apply andb_true_iff in Hd as [H1%N.leb_le H2%N.leb_le].
      destruct d as [|p]; [done|].
      repeat (destruct p as [p|p|]; try done); lia. }
    rewrite Hsign. rewrite (app_comm_cons ds tail d).
    rewrite (span_digits_all (d :: ds) tail) by (by constructor || done).
    by rewrite mkFinite_not_NaN. }
  split; [by apply Hread|].
  rewrite (Hread rest Hrest).
  rewrite <- (app_nil_r ds) at 2. by rewrite (Hread [] I).
Qed.

Lemma number_edit_drops_what_follows_witness :
  onChange_number (js "7.9") = VNum (Finite false 7 0) /\
  onChange_number (js "7.9") = onChange_number (js "7").
Proof.
  apply (number_edit_drops_what_follows_the_digits [] (js ".9") 0x37).
  - reflexivity.
  - constructor.
  - unfold safe_integer. vm_compute. discriminate.
  - reflexivity.
Defined.

(** ** Brace literals: what comes back *)

Section BraceLiterals.

Implicit Types (s p : JsString) (c : N) (ps : list JsString).

Lemma split_without_separator p c : c ∉ p -> split p c = [p].
Proof.
  induction p as [|x p IH]; intros Hc; simpl; [done|].
  apply not_elem_of_cons in Hc as [Hx Hp].
  replace (x =? c) with false by (symmetry; apply N.eqb_neq; congruence).
  by rewrite (IH Hp).
Qed.

Lemma split_at_separator p c s :
  c ∉ p -> split (p ++ c :: s) c = p :: split s c.
Proof.
  induction p as [|x p IH]; intros Hc; simpl.
  - by rewrite N.eqb_refl.
  - apply not_elem_of_cons in Hc as [Hx Hp].
    replace (x =? c) with false by (symmetry; apply N.eqb_neq; congruence).
    by rewrite (IH Hp).
Qed.

(** Cutting the join of pieces that hold no separator gives the pieces. *)
Lemma split_join ps c :
  ps <> [] -> Forall (fun p => c ∉ p) ps -> split (join ps [c]) c = ps.
Proof.
  intros Hne Hall. induction Hall as [|p ps Hp Hps IH]; [done|].
  destruct ps as [|q ps]; simpl.
  - by apply split_without_separator.
  - rewrite (split_at_separator p c _ Hp). f_equal. by apply IH.
Qed.

Lemma trimStart_nil s :
  trimStart s = [] -> Forall (fun c => is_white_space c = true) s.
Proof.
  induction s as [|c s IH]; simpl; [constructor|].
  destruct (is_white_space c) eqn:Hc; [|discriminate].
  intros H. constructor; [done | by apply IH].
Qed.

Lemma trimEnd_nil s :
  trimEnd s = [] -> Forall (fun c => is_white_space c = true) s.
Proof.
  induction s as [|c s IH]; simpl; [constructor|].
  destruct (trimEnd s) as [|x r]; [|discriminate].
  destruct (is_white_space c) eqn:Hc; [|discriminate].
  intros _. constructor; [done | by apply IH].
Qed.

Lemma trimStart_head s :
  match trimStart s with
  | [] => True
  | c :: _ => is_white_space c = false
  end.
Proof.
  induction s as [|c s IH]; simpl; [done|].
  by destruct (is_white_space c) eqn:Hc.
Qed.

(** Only blank strings trim to nothing. *)
Lemma trim_nil s : trim s = [] -> Forall (fun c => is_white_space c = true) s.
Proof.
  unfold trim. intros H%trimEnd_nil. apply trimStart_nil.
  pose proof (trimStart_head s) as Hh.
  destruct (trimStart s) as [|c r]; [done|].
  apply Forall_cons in H as [Hc _]. congruence.
Qed.

Lemma join_cons2 p q ps (sep : JsString) :
  join (p :: q :: ps) sep = p ++ sep ++ join (q :: ps) sep.
Proof. reflexivity. Qed.

End BraceLiterals.

(** X16.  A brace literal without quoting is read back exactly: for a
    non-empty list of items that hold no comma and no white space at
    either end (other than the list of one empty item), the normalisation
    of a list field turns ["{" item1 "," ... "," itemN "}"] into the list
    of those items. *)
Theorem brace_literal_round_trip (elemType : ZodType) (items : list JsString) :
  items <> [] ->
  items <> [[]] ->
  Forall (fun item => (0x2C ∉ item) /\ trim item = item) items ->
  coerce_initial (ZodArray elemType)
    (VStr (0x7B :: join items [0x2C] ++ [0x7D]))
  = VArr (map VStr items).
Proof.
  intros Hne Hne1 Hall. rewrite coerce_array_delimited.
  rewrite decide_False.
  - rewrite split_join; [|done|].
    2: { eapply Forall_impl; [exact Hall|]. by intros item [Hc _]. }
    f_equal. clear Hne Hne1. induction Hall as [|p ps [_ Hp] _ IH]; [done|].
    simpl. by rewrite Hp, IH.
  - destruct items as [|p [|q ps]]; [done| |].
    + simpl. apply Forall_cons in Hall as [[_ ->] _]. congruence.
    + rewrite join_cons2. intros Hblank%trim_nil.
      apply Forall_app in Hblank as [_ Hblank].
      by apply Forall_cons in Hblank as [Hcomma _].
Qed.

Lemma brace_literal_round_trip_witness :
  coerce_initial (ZodArray ZodString) (VStr (js "{ONE,,two words}"))
  = VArr [VStr (js "ONE"); VStr []; VStr (js "two words")].
Proof.
  apply (brace_literal_round_trip ZodString [js "ONE"; []; js "two words"]);
    [discriminate | discriminate |].
  repeat constructor; by apply (bool_decide_unpack _).
Defined.

(** ** List fields: what the input shows and what typing it back stores *)

Section JsonRoundTrip.

Implicit Types (s rest str tail : JsString) (c d : N).

Lemma hex_digit_value d : d < 16 -> digit_value 16 (hex_digit d) = Some d.
Proof.
  intros Hd. unfold hex_digit.
  destruct d as [|p]; [done|].
  repeat (destruct p as [p|p|]; try done); lia.
Qed.

Lemma unicode_escape_value c :
  c < 0x10000 ->
  (((0 * 16 + (c / 0x1000) mod 16) * 16 + (c / 0x100) mod 16) * 16
     + (c / 0x10) mod 16) * 16 + c mod 16 = c.
Proof. intros. zify. Z.to_euclidean_division_equations. lia. Qed.

Lemma parse_unicode_escape c rest str tail :
  c < 0x10000 ->
  parse_string_body rest = Some (str, tail) ->
  parse_string_body (unicode_escape c ++ rest) = Some (c :: str, tail).
Proof.
  intros Hc Hrest. unfold unicode_escape.
  cbn [app]. rewrite parse_string_body_cons.
  change (0x5C =? 0x22) with false. change (0x5C <? 0x20) with false.
  change (0x5C =? 0x5C) with true. change (0x75 =? 0x75) with true. cbv iota.
  assert (H16 : forall x, x mod 16 < 16) by (intros; by apply N.mod_lt).
  cbn [span_digits]. rewrite !hex_digit_value by apply H16.
  rewrite Hrest. f_equal. f_equal. f_equal.
  unfold digits_value. cbn [fold_left].
  rewrite !hex_digit_value by apply H16. cbn [default from_option id].
  by apply unicode_escape_value.
Qed.

Lemma parse_verbatim_unit c rest str tail :
  (c =? 0x22) = false -> (c <? 0x20) = false -> (c =? 0x5C) = false ->
  parse_string_body rest = Some (str, tail) ->
  parse_string_body (c :: rest) = Some (c :: str, tail).
Proof.
  intros H1 H2 H3 Hrest. rewrite parse_string_body_cons.
  by rewrite H1, H2, H3, Hrest.
Qed.

Lemma parse_escape_unit c rest str tail :
  parse_string_body rest = Some (str, tail) ->
  parse_string_body (escape_unit c ++ rest) = Some (c :: str, tail).
Proof.
  intros Hrest. unfold escape_unit.
  destruct (N.eqb_spec c 0x08) as [->|H08];
    [cbn [app]; rewrite parse_string_body_cons; cbn; by rewrite Hrest|].
  destruct (N.eqb_spec c 0x09) as [->|H09];
    [cbn [app]; rewrite parse_string_body_cons; cbn; by rewrite Hrest|].
  destruct (N.eqb_spec c 0x0A) as [->|H0A];
    [cbn [app]; rewrite parse_string_body_cons; cbn; by rewrite Hrest|].
  destruct (N.eqb_spec c 0x0C) as [->|H0C];
    [cbn [app]; rewrite parse_string_body_cons; cbn; by rewrite Hrest|].
  destruct (N.eqb_spec c 0x0D) as [->|H0D];
    [cbn [app]; rewrite parse_string_body_cons; cbn; by rewrite Hrest|].
  destruct (N.eqb_spec c 0x22) as [->|H22];
    [cbn [app]; rewrite parse_string_body_cons; cbn; by rewrite Hrest|].
  destruct (N.eqb_spec c 0x5C) as [->|H5C];
    [cbn [app]; rewrite parse_string_body_cons; cbn; by rewrite Hrest|].
  destruct ((c <? 0x20) || is_high_surrogate c || is_low_surrogate c) eqn:Hu.
  - apply parse_unicode_escape; [|done].
    unfold is_high_surrogate, is_low_surrogate in Hu.
    apply orb_true_iff in Hu as [Hu|Hu]; [apply orb_true_iff in Hu as [Hu|Hu]|].
    + apply N.ltb_lt in Hu. lia.
    + apply andb_true_iff in Hu as [_ Hu%N.leb_le]. lia.
    + apply andb_true_iff in Hu as [_ Hu%N.leb_le]. lia.
  - apply orb_false_iff in Hu as [Hu _]. apply orb_false_iff in Hu as [Hu _].
    cbn [app]. apply parse_verbatim_unit; [by apply N.eqb_neq | done |
                                           by apply N.eqb_neq | done].
Qed.

Lemma high_surrogate_verbatim c :
  is_high_surrogate c = true ->
  (c =? 0x22) = false /\ (c <? 0x20) = false /\ (c =? 0x5C) = false /\
  c < 0x10000.
Proof.
  unfold is_high_surrogate.
  intros [H1%N.leb_le H2%N.leb_le]%andb_true_iff.
  repeat split; [apply N.eqb_neq | apply N.ltb_ge | apply N.eqb_neq |]; lia.
Qed.

Lemma low_surrogate_verbatim c :
  is_low_surrogate c = true ->
  (c =? 0x22) = false /\ (c <? 0x20) = false /\ (c =? 0x5C) = false.
Proof.
  unfold is_low_surrogate.
  intros [H1%N.leb_le H2%N.leb_le]%andb_true_iff.
  repeat split; [apply N.eqb_neq | apply N.ltb_ge | apply N.eqb_neq]; lia.
Qed.

(** Reading a quoted string gives the string back. *)
Lemma parse_escape_units (n : nat) : forall s tail,
  (length s <= n)%nat ->
  parse_string_body (escape_units s ++ 0x22 :: tail) = Some (s, tail).
Proof.
  induction n as [|n IH]; intros s tail Hn.
  - destruct s; [|simpl in Hn; lia]. cbn [escape_units app].
    by rewrite parse_string_body_cons.
  - destruct s as [|c r];
      [cbn [escape_units app]; by rewrite parse_string_body_cons|].
    simpl in Hn. cbn [escape_units].
    destruct (is_high_surrogate c) eqn:Hh.
    + destruct (high_surrogate_verbatim c Hh) as (H1 & H2 & H3 & H4).
      destruct r as [|d r'].
      * apply parse_unicode_escape; [done|].
        by rewrite parse_string_body_cons.
      * destruct (is_low_surrogate d) eqn:Hl.
        -- destruct (low_surrogate_verbatim d Hl) as (L1 & L2 & L3).
           cbn [app]. apply parse_verbatim_unit; [done..|].
           apply parse_verbatim_unit; [done..|].
           apply IH. simpl in Hn. lia.
        -- rewrite <- app_assoc. apply parse_unicode_escape; [done|].
           apply IH. lia.
    + rewrite <- app_assoc. apply parse_escape_unit. apply IH. lia.
Qed.

Lemma parse_quoted s tail :
  parse_string_body (escape_units s ++ 0x22 :: tail) = Some (s, tail).
Proof. by apply (parse_escape_units (length s)). Qed.

Lemma QuoteJSONString_app s tail :
  QuoteJSONString s ++ tail = 0x22 :: escape_units s ++ 0x22 :: tail.
Proof. unfold QuoteJSONString. simpl. by rewrite <- app_assoc. Qed.

Lemma skip_ws_not_ws c r : is_json_ws c = false -> skip_ws (c :: r) = c :: r.
Proof. intros H. simpl. by rewrite H. Qed.

(** A quoted string is read as that string, with any fuel. *)
Lemma parse_value_quoted fuel s tail :
  parse_value (S fuel) (QuoteJSONString s ++ tail) = POk (VStr s) tail.
Proof.
  rewrite QuoteJSONString_app, parse_value_S.
  rewrite skip_ws_not_ws by done. cbv iota.
  change (0x22 =? 0x7B) with false. change (0x22 =? 0x5B) with false.
  change (0x22 =? 0x22) with true. cbv iota.
  by rewrite parse_quoted.
Qed.

(** The elements of an array of strings are read back in order. *)
Lemma parse_elements_quoted strs : forall fuel acc tail,
  strs <> [] ->
  (length strs < fuel)%nat ->
  parse_elements fuel
    (join (map QuoteJSONString strs) [0x2C] ++ 0x5D :: tail) acc
  = POk (acc ++ map VStr strs) tail.
Proof.
  induction strs as [|s strs IH]; intros fuel acc tail Hne Hf; [done|].
  destruct fuel as [|[|fuel]]; simpl in Hf; try lia.
  rewrite parse_elements_S.
  destruct strs as [|s' strs].
  - cbn [map join]. rewrite parse_value_quoted.
    rewrite skip_ws_not_ws by done.
    change (0x5D =? 0x2C) with false. change (0x5D =? 0x5D) with true.
    done.
  - change (map QuoteJSONString (s :: s' :: strs))
      with (QuoteJSONString s :: QuoteJSONString s' :: map QuoteJSONString strs).
    rewrite join_cons2, <- !app_assoc. rewrite parse_value_quoted.
    cbn [app]. rewrite skip_ws_not_ws by done.
    change (0x2C =? 0x2C) with true. cbv iota.
    change (QuoteJSONString s' :: map QuoteJSONString strs)
      with (map QuoteJSONString (s' :: strs)).
    rewrite (IH (S fuel) (acc ++ [VStr s]) tail); [|done|simpl in *; lia].
    by rewrite <- app_assoc.
Qed.

Lemma join_quoted_length (strs : list JsString) :
  (length strs <= length (join (map QuoteJSONString strs) [0x2C%N]))%nat.
Proof.
  induction strs as [|s [|s' strs] IH]; [done| |].
  - simpl. lia.
  - cbn [map]. rewrite join_cons2, !length_app. cbn [map] in IH.
    unfold QuoteJSONString at 1. simpl length in *. lia.
Qed.

Lemma serialize_strings (strs : list JsString) :
  serialize_element (VArr (map VStr strs))
  = Some (js "[" ++ join (map QuoteJSONString strs) (js ",") ++ js "]").
Proof.
  cbn [serialize_element].
  replace (fold_right _ (Some []) (map VStr strs))
    with (Some (map QuoteJSONString strs)); [done|].
  induction strs as [|s strs IH]; [done|].
  cbn [map fold_right]. rewrite <- IH. done.
Qed.

(** [JSON.parse] reads the text of an array of strings as that array. *)
Lemma JSON_parse_strings (strs : list JsString) :
  JSON_parse (js "[" ++ join (map QuoteJSONString strs) (js ",") ++ js "]")
  = Ok (VArr (map VStr strs)).
Proof.
  unfold JSON_parse.
  set (text := js "[" ++ _).
  replace (2 * length text + 2)%nat with (S (2 * length text + 1)) by lia.
  rewrite parse_value_S. unfold text. cbn [js app].
  change (N_of_ascii "[") with 0x5B. change (N_of_ascii ",") with 0x2C.
  change (N_of_ascii "]") with 0x5D.
  rewrite skip_ws_not_ws by done.
  change (0x5B =? 0x7B) with false. change (0x5B =? 0x5B) with true. cbv iota.
  destruct strs as [|s strs].
  - cbn [map join app]. rewrite skip_ws_not_ws by done.
    change (0x5D =? 0x5D) with true. done.
  - assert (Hhead : exists r,
              join (map QuoteJSONString (s :: strs)) [0x2C] ++ [0x5D] = 0x22 :: r).
    { destruct strs as [|s' strs]; cbn [map];
        [cbn [join] | rewrite join_cons2]; unfold QuoteJSONString at 1;
        cbn [app]; by eexists. }
    destruct Hhead as [r Hr]. rewrite Hr.
    rewrite skip_ws_not_ws by done.
    change (0x22 =? 0x5D) with false. cbv iota. rewrite <- Hr.
    rewrite (parse_elements_quoted (s :: strs) _ [] []); [done|done|].
    pose proof (join_quoted_length (s :: strs)) as Hl.
    cbn [length]. rewrite length_app. cbn [length] in *. lia.
Qed.

Lemma trimEnd_cons_nil c r : trimEnd (c :: r) = [] -> is_white_space c = true.
Proof.
  simpl. destruct (trimEnd r); [|discriminate].
  by destruct (is_white_space c).
Qed.

Lemma trim_not_blank c r : is_white_space c = false -> trim (c :: r) <> [].
Proof.
  intros Hc. unfold trim. simpl. rewrite Hc.
  intros H%trimEnd_cons_nil. congruence.
Qed.

End JsonRoundTrip.

(** X17.  What the input of a list field shows can be typed back without
    a change: for a field value that is [null], a raw string the edit
    handler kept, or a list of strings, the input shows a text
    (nothing, the raw string, the JSON text of the list) for which the
    edit handler stores that same value again. *)
Theorem list_input_round_trip (v : JsVal) :
  (v = VNull \/
   (exists input, onChange_array input = VStr input /\ v = VStr input) \/
   (exists strs, v = VArr (map VStr strs))) ->
  exists text,
    array_input_value v = Some (VStr text) /\
    onChange_array text = v.
Proof.
  intros [->|[(input & Hkept & ->)|[strs ->]]].
  - by exists [].
  - exists input. split; [|done].
    destruct input as [|c r]; [discriminate|]. done.
  - exists (js "[" ++ join (map QuoteJSONString strs) (js ",") ++ js "]").
    split.
    + unfold array_input_value. cbn [is_nullish isArray].
      by rewrite serialize_strings.
    + unfold onChange_array. rewrite decide_False by (by apply trim_not_blank).
      by rewrite JSON_parse_strings.
Qed.

Lemma list_input_round_trip_witness :
  exists text,
    array_input_value (VArr [VStr (js "x"); VStr (quoted (js "y"))])
      = Some (VStr text) /\
    onChange_array text = VArr [VStr (js "x"); VStr (quoted (js "y"))].
Proof.
  apply (list_input_round_trip (VArr [VStr (js "x"); VStr (quoted (js "y"))])).
  right. right. by exists [js "x"; quoted (js "y")].
Defined.

Example list_input_shows :
  array_input_value (VArr [VStr (js "x"); VStr (quoted (js "y"))])
    = Some (VStr (js "[" ++ quoted (js "x") ++ js ","
                    ++ quoted ([0x5C] ++ quoted (js "y\")) ++ js "]")) /\
  array_input_value VUndefined = Some (VStr []) /\
  onChange_array [] = VNull.
Proof. repeat split. Qed.

(** ** Integer fields: what the input shows and what typing it back stores *)

Section IntegerRoundTrip.

Implicit Types (d : Decimal.uint) (m : N) (ds : JsString).

Lemma uint_units_digits d : Forall (fun c => is_digit c = true) (uint_units d).
Proof. induction d; simpl; constructor; done. Qed.

Lemma digits_fold_acc d : forall acc,
  fold_left (fun a c => a * 10 + default 0 (digit_value 10 c))
            (uint_units d) (Npos acc)
  = Npos (Pos.of_uint_acc d acc).
Proof.
  induction d; intros acc; cbn [uint_units fold_left Pos.of_uint_acc];
    [done|..];
    match goal with
    | |- fold_left _ _ ?x = Npos (Pos.of_uint_acc _ ?y) =>
        replace x with (Npos y)
          by (rewrite digit_value_decimal; vm_compute (is_digit _); simpl; lia)
    end; apply IHd.
Qed.

Lemma digits_value_uint d : digits_value 10 (uint_units d) = Pos.of_uint d.
Proof.
  unfold digits_value.
  induction d; cbn [uint_units fold_left Pos.of_uint]; [done|..];
    try (match goal with
         | |- fold_left _ _ ?x = Npos (Pos.of_uint_acc _ ?y) =>
             replace x with (Npos y)
               by (rewrite digit_value_decimal; vm_compute (is_digit _); simpl; lia)
         end; apply digits_fold_acc).
  exact IHd.
Qed.

(** The decimal digits of a number denote it. *)
Lemma digits_value_units m : digits_value 10 (N_units m) = m.
Proof.
  unfold N_units. rewrite digits_value_uint.
  apply DecimalN.Unsigned.of_to.
Qed.

Lemma digits_value_zeros ds (k : nat) :
  digits_value 10 (ds ++ replicate k 0x30) = digits_value 10 ds * 10 ^ N.of_nat k.
Proof.
  unfold digits_value. rewrite fold_left_app.
  generalize (fold_left (fun a c => a * 10 + default 0 (digit_value 10 c)) ds 0).
  induction k as [|k IH]; intros v.
  - simpl. lia.
  - cbn [replicate fold_left]. rewrite IH.
    change (default 0 (digit_value 10 0x30)) with 0.
    rewrite Nat2N.inj_succ, N.pow_succ_r', N.add_0_r. nia.
Qed.

Lemma strip_zeros_power m (k : nat) : forall fuel z,
  m mod 10 <> 0 ->
  (k <= fuel)%nat ->
  strip_zeros fuel (m * 10 ^ N.of_nat k) z = (m, (z + Z.of_nat k)%Z).
Proof.
  induction k as [|k IH]; intros fuel z Hm Hf.
  - rewrite N.mul_1_r. destruct fuel as [|fuel]; simpl.
    + f_equal. lia.
    + destruct (N.eqb_spec (m mod 10) 0); [done|]. f_equal. lia.
  - destruct fuel as [|fuel]; [lia|]. cbn [strip_zeros].
    rewrite Nat2N.inj_succ, N.pow_succ_r'.
    replace (m * (10 * 10 ^ N.of_nat k)) with (m * 10 ^ N.of_nat k * 10) by lia.
    rewrite N.Div0.mod_mul, N.eqb_refl, N.div_mul by done.
    rewrite IH by (done || lia). f_equal. lia.
Qed.

Lemma pos_size_nat_power (p : positive) :
  Npos p < 2 ^ N.of_nat (Pos.size_nat p).
Proof.
  induction p as [p IH|p IH|]; cbn [Pos.size_nat];
    rewrite ?Nat2N.inj_succ, ?N.pow_succ_r'; cbn; lia.
Qed.

Lemma size_nat_power m (k : nat) : m <> 0 -> (k <= N.size_nat (m * 10 ^ N.of_nat k))%nat.
Proof.
  intros Hm.
  assert (H2 : 2 ^ N.of_nat k <= m * 10 ^ N.of_nat k).
  { transitivity (10 ^ N.of_nat k).
    - apply N.pow_le_mono_l. lia.
    - assert (0 < 10 ^ N.of_nat k) by (apply N.neq_0_lt_0, N.pow_nonzero; lia).
      nia. }
  destruct (m * 10 ^ N.of_nat k) as [|p] eqn:E.
  - assert (0 < 2 ^ N.of_nat k) by (apply N.neq_0_lt_0, N.pow_nonzero; lia). lia.
  - cbn [N.size_nat]. pose proof (pos_size_nat_power p) as Hp.
    assert (Hlt : 2 ^ N.of_nat k < 2 ^ N.of_nat (Pos.size_nat p)) by lia.
    apply N.pow_lt_mono_r_iff in Hlt; lia.
Qed.

(** A number in lowest terms is what [mkFinite] makes of its value. *)
Lemma mkFinite_power negative m (k : nat) :
  m <> 0 -> m mod 10 <> 0 ->
  mkFinite negative (m * 10 ^ N.of_nat k) 0 = Finite negative m (Z.of_nat k).
Proof.
  intros Hm Hm10. unfold mkFinite.
  assert (Hnz : m * 10 ^ N.of_nat k <> 0).
  { apply N.neq_mul_0. split; [done|]. apply N.pow_nonzero. lia. }
  destruct (N.eqb_spec (m * 10 ^ N.of_nat k) 0); [done|].
  by rewrite (strip_zeros_power m k _ 0%Z Hm10 (size_nat_power m k Hm)).
Qed.

Lemma strip_sign_digit c r :
  is_digit c = true -> strip_sign (c :: r) = (false, c :: r).
Proof.
  unfold strip_sign, is_digit.
  intros [H1%N.leb_le H2%N.leb_le]%andb_true_iff.
  destruct c as [|p]; [done|].
  repeat (destruct p as [p|p|]; try done); lia.
Qed.

(** Reading a run of digits. *)
Lemma parseInt10_digits (negative : bool) ds :
  ds <> [] ->
  Forall (fun c => is_digit c = true) ds ->
  parseInt10 ((if negative then js "-" else []) ++ ds)
    = mkFinite negative (digits_value 10 ds) 0.
Proof.
  intros Hne Hds. unfold parseInt10.
  assert (Hspan : span_digits 10 ds = (ds, []))
    by (rewrite <- (app_nil_r ds) at 1; by apply span_digits_all).
  destruct ds as [|c ds]; [done|]. apply Forall_cons in Hds as [Hc Hds].
  destruct negative; cbn [js app trimStart].
  - change (is_white_space (N_of_ascii "-")) with false. cbv iota.
    change (strip_sign (N_of_ascii "-" :: c :: ds)) with (true, c :: ds).
    cbv beta iota zeta. by rewrite Hspan.
  - rewrite (digit_not_white_space c Hc), (strip_sign_digit c ds Hc).
    cbv beta iota zeta. by rewrite Hspan.
Qed.

Lemma Number_toString_integer (negative : bool) m (k : nat) :
  m <> 0 ->
  (length (N_units m) + k <= 21)%nat ->
  Number_toString (Finite negative m (Z.of_nat k))
    = (if negative then js "-" else []) ++ N_units m ++ replicate k 0x30.
Proof.
  intros Hm Hlen. destruct m as [|p]; [done|].
  cbn [Number_toString]. cbv zeta.
  replace ((Z.of_nat (length (N_units (N.pos p))) <=?
            Z.of_nat k + Z.of_nat (length (N_units (N.pos p)))) &&
           (Z.of_nat k + Z.of_nat (length (N_units (N.pos p))) <=? 21))%Z
    with true.
  - f_equal. f_equal. f_equal. lia.
  - symmetry. apply andb_true_iff. split; apply Z.leb_le; lia.
Qed.

End IntegerRoundTrip.

(** X18.  What the input of an integer field shows can be typed back
    without a change: for a field value that is [undefined], zero, or an
    integer other than zero written with at most 21 digits, the input
    shows a text ([field.value ?? ""] as a string) for which the edit
    handler stores that same value again. *)
Theorem integer_input_round_trip (v : JsVal) :
  (v = VUndefined \/
   v = VNum (Finite false 0 0) \/
   (exists negative m (k : nat),
      v = VNum (Finite negative m (Z.of_nat k)) /\
      m <> 0 /\ m mod 10 <> 0 /\
      (length (N_units m) + k <= 21)%nat)) ->
  onChange_number (ToString (number_input_value v)) = v.
Proof.
  intros [->|[->|(negative & m & k & -> & Hm & Hm10 & Hlen)]]; [done|done|].
  cbn [number_input_value is_nullish ToString].
  rewrite (Number_toString_integer negative m k Hm Hlen).
  unfold onChange_number.
  rewrite (parseInt10_digits negative (N_units m ++ replicate k 0x30)).
  - rewrite digits_value_zeros, digits_value_units.
    by rewrite (mkFinite_power negative m k Hm Hm10).
  - intros Hnil. apply (f_equal (digits_value 10)) in Hnil.
    rewrite digits_value_zeros, digits_value_units in Hnil.
    apply N.eq_mul_0 in Hnil as [?|Hp]; [done|].
    by apply N.pow_nonzero in Hp.
  - apply Forall_app. split; [apply uint_units_digits|].
    by apply Forall_replicate.
Qed.

Lemma integer_input_round_trip_witness :
  onChange_number (ToString (number_input_value (VNum (Finite true 12 2))))
    = VNum (Finite true 12 2).
Proof.
  apply (integer_input_round_trip (VNum (Finite true 12 2))).
  right. right. exists true, 12, 2%nat.
  split; [reflexivity|]. split; [discriminate|]. split; [discriminate|].
  vm_compute. lia.
Defined.

Example integer_input_loses_the_fraction_and_the_sign_of_zero :
  onChange_number (ToString (number_input_value (VNum (Finite false 15 (-1)))))
    = VNum (Finite false 1 0) /\
  onChange_number (ToString (number_input_value (VNum (Finite true 0 0))))
    = VNum (Finite false 0 0) /\
  onChange_number (ToString (number_input_value (VNum (Finite false 1 21))))
    = VNum (Finite false 1 0).
Proof. repeat split. Qed.

(** ** Integer fields: where the two coercions agree *)

Section PlainIntegers.

Implicit Types (s ds : JsString) (c : N).

Lemma trimEnd_no_white_space s :
  Forall (fun c => is_white_space c = false) s -> trimEnd s = s.
Proof.
  induction 1 as [|c r Hc _ IH]; [done|].
  simpl. rewrite IH, Hc. by destruct r.
Qed.

Lemma trim_no_white_space s :
  Forall (fun c => is_white_space c = false) s -> trim s = s.
Proof.
  intros Hs. unfold trim.
  replace (trimStart s) with s; [by apply trimEnd_no_white_space|].
  destruct Hs as [|c r Hc _]; [done|]. simpl. by rewrite Hc.
Qed.

Lemma digit_cases c :
  is_digit c = true ->
  c = 0x30 \/ c = 0x31 \/ c = 0x32 \/ c = 0x33 \/ c = 0x34 \/
  c = 0x35 \/ c = 0x36 \/ c = 0x37 \/ c = 0x38 \/ c = 0x39.
Proof.
  unfold is_digit. intros [H1%N.leb_le H2%N.leb_le]%andb_true_iff. lia.
Qed.

Lemma parse_non_decimal_digits ds :
  Forall (fun c => is_digit c = true) ds -> parse_non_decimal ds = None.
Proof.
  intros Hds. destruct Hds as [|c r Hc Hr]; [done|].
  destruct Hr as [|p r Hp Hr];
    [destruct (digit_cases c Hc) as [->|[->|[->|[->|[->|[->|[->|[->|[->| ->]]]]]]]]];
     done|].
  destruct (digit_cases c Hc) as [->|[->|[->|[->|[->|[->|[->|[->|[->| ->]]]]]]]]];
    try done.
  destruct (digit_cases p Hp) as [->|[->|[->|[->|[->|[->|[->|[->|[->| ->]]]]]]]]];
    done.
Qed.

Lemma parse_unsigned_decimal_digits (negative : bool) ds :
  ds <> [] ->
  Forall (fun c => is_digit c = true) ds ->
  parse_unsigned_decimal negative ds
    = Some (mkFinite negative (digits_value 10 ds) 0).
Proof.
  intros Hne Hds. unfold parse_unsigned_decimal.
  rewrite decide_False.
  - replace (span_digits 10 ds) with (ds, @nil N)
      by (symmetry; rewrite <- (app_nil_r ds) at 1; by apply span_digits_all).
    cbv beta iota zeta. destruct ds as [|c ds]; [done|].
    cbn [parse_exponent length]. by rewrite app_nil_r.
  - intros ->. apply Forall_cons in Hds as [Hc _]. discriminate.
Qed.

(** [Number] on an optional minus and a run of digits. *)
Lemma StringToNumber_digits (negative : bool) ds :
  ds <> [] ->
  Forall (fun c => is_digit c = true) ds ->
  StringToNumber ((if negative then js "-" else []) ++ ds)
    = mkFinite negative (digits_value 10 ds) 0.
Proof.
  intros Hne Hds. unfold StringToNumber.
  assert (Hnws : Forall (fun c => is_white_space c = false) ds)
    by (eapply Forall_impl; [exact Hds | apply digit_not_white_space]).
  rewrite trim_no_white_space
    by (destruct negative; [by constructor | done]).
  destruct negative; cbn [js app].
  - change (N_of_ascii "-") with 0x2D.
    change (parse_non_decimal (0x2D :: ds)) with (@None Number).
    change (strip_sign (0x2D :: ds)) with (true, ds). cbv beta iota zeta.
    rewrite (parse_unsigned_decimal_digits true ds Hne Hds).
    by destruct ds.
  - pose proof (parse_non_decimal_digits ds Hds) as Hnd.
    pose proof (parse_unsigned_decimal_digits false ds Hne Hds) as Hud.
    destruct ds as [|c ds]; [done|]. cbv iota. rewrite Hnd.
    rewrite (strip_sign_digit c ds) by (by apply Forall_cons in Hds as [? _]).
    cbv beta iota zeta. by rewrite Hud.
Qed.

End PlainIntegers.

(** X19.  On the text of a plain safe integer (an optional minus and at
    least one digit, denoting at most [2^53]) the two coercions of an
    integer field agree: the normalisation of initial values and the edit
    handler both give the integer the digits denote. *)
Theorem integer_paths_agree_on_plain_integers
    (negative : bool) (ds : JsString) :
  ds <> [] ->
  Forall (fun c => is_digit c = true) ds ->
  safe_integer (digits_value 10 ds) ->
  let text := (if negative then js "-" else []) ++ ds in
  coerce_initial ZodNumber (VStr text)
    = VNum (mkFinite negative (digits_value 10 ds) 0) /\
  onChange_number text = coerce_initial ZodNumber (VStr text).
Proof.
  intros Hne Hds _ text. unfold text.
  cbn [coerce_initial ToNumber]. unfold onChange_number.
  rewrite (StringToNumber_digits negative ds Hne Hds).
  rewrite (parseInt10_digits negative ds Hne Hds).
  by rewrite mkFinite_not_NaN.
Qed.

Lemma integer_paths_agree_witness :
  let text := js "-" ++ js "1200" in
  coerce_initial ZodNumber (VStr text)
    = VNum (mkFinite true (digits_value 10 (js "1200")) 0) /\
  onChange_number text = coerce_initial ZodNumber (VStr text).
Proof.
  apply (integer_paths_agree_on_plain_integers true (js "1200")).
  - discriminate.
  - repeat constructor.
  - unfold safe_integer. vm_compute. discriminate.
Defined.

(** ** Integer fields: what the number input hands over *)

Section NumberInput.

Implicit Types (s r : JsString) (c : N).









End NumberInput.



(** What the number input hands over, by evaluation: numeric text as it
    is, anything else as the empty string. *)
Example number_input_hands_over :
  number_input_target_value (js "42") = js "42" /\
  number_input_target_value (js "-7.9") = js "-7.9" /\
  number_input_target_value (js "1e5") = js "1e5" /\
  number_input_target_value (js "abc") = [] /\
  number_input_target_value (js "12abc") = [] /\
  number_input_target_value (js "5.") = [] /\
  number_input_target_value (js " 42") = [] /\
  number_input_target_value (js "") = [].
Proof. repeat split. Qed.
